(** * Conversation store gateway ([utils/firebase_utils.py])

    A shallow embedding of the lazily initialised Firestore handle
    ([db], [get_db]) and of the four operations built on it
    ([create_new_chat], [get_chat_threads], [store_message],
    [get_chat_messages]), followed by the properties of the gateway.

    Python code runs here in a state-and-exception monad over a [World]:
    the process environment, the module-level global [db], the remote
    document database, and a log of every call that leaves the module.

    The model is sequential, one call after the other.  The database
    answers every request: a write is committed unless it is a [create]
    of a document that exists, and a query is answered from the
    collection as it is, so the network and the indexes a query needs
    are taken to be there.  Every handle leads to the same database. *)

From stdpp Require Import gmap strings list fin_maps sorting pretty.

Local Open Scope Z_scope.
Local Open Scope string_scope.
Local Open Scope list_scope.

(** ** Values *)

(** What [json.loads] can return. *)
#[warnings="-register-all"]
Inductive json :=
| JNull
| JBool (b : bool)
| JNumber (n : Z)
| JString (s : string)
| JArray (items : list json)
| JObject (members : list (string * json)).

(** Field values of a stored document.  The gateway stores text and
    server timestamps only. *)
Inductive value :=
| VTimestamp (t : Z)
| VString (s : string).

Global Instance value_eq_dec : EqDecision value.
Proof. solve_decision. Defined.

(** Field values of a document as handed to a write: a literal, or the
    sentinel [firestore.SERVER_TIMESTAMP] the server replaces by its own
    clock when it commits the write. *)
Inductive field_value :=
| Lit (v : value)
| SERVER_TIMESTAMP.

(** [firestore.Query.ASCENDING] and [firestore.Query.DESCENDING]. *)
Inductive direction := ASCENDING | DESCENDING.

(** Python exceptions (instances of [Exception]): the [HTTPException] of
    the web framework, and whatever a library call raises. *)
Inductive exn :=
| HTTPException (status_code : Z) (detail : string)
| LibraryError (cls : string).

Inductive result (A : Type) :=
| Ok (a : A)
| Raise (e : exn).
Arguments Ok {A} a.
Arguments Raise {A} e.

(** Calls that leave the module, in the order they are made. *)
Inductive event :=
| Getenv (name : string)
| JsonLoads (text : string)
| ServiceAccountInfo
| PathExists (path : string)
| NewClient (explicit_credentials : bool)
| Write (coll id : string)
| RunQuery (coll : string).

Global Instance event_eq_dec : EqDecision event.
Proof. solve_decision. Defined.

(** The calls by which a handle is acquired. *)
Definition is_acquisition (e : event) : bool :=
  match e with
  | Getenv _ | JsonLoads _ | ServiceAccountInfo | PathExists _ | NewClient _ => true
  | Write _ _ | RunQuery _ => false
  end.

(** The calls that read or write the document store. *)
Definition is_store_access (e : event) : bool :=
  match e with
  | Write _ _ | RunQuery _ => true
  | _ => false
  end.

Definition is_path_lookup (e : event) : bool :=
  match e with
  | PathExists _ => true
  | _ => false
  end.

(** ** The platform

    Everything the module imports and does not define: the JSON parser,
    the Google credential and client constructors, the generator of
    document identifiers of the Firestore client, the clock of the
    server and the clock of the process.  A result [Raise] stands for
    the call raising. *)
Record Platform := {
  credentials : Type;
  client : Type;
  (** [json.loads] *)
  json_loads : string -> result json;
  (** [service_account.Credentials.from_service_account_info] (with the
      import of [google.oauth2.service_account] before it) *)
  from_service_account_info : json -> result credentials;
  (** [firestore.Client(credentials=..., project=...)]; with neither
      argument it looks for default credentials in the environment *)
  firestore_Client :
    gmap string string -> gset string -> option credentials -> json -> result client;
  (** the [n]-th identifier generated by the client for a new document *)
  auto_id : nat -> string;
  (** the server clock at the [n]-th committed write *)
  commit_time : nat -> Z;
  (** [str(datetime.utcnow().timestamp())] at the [n]-th reading of the
      process clock *)
  utcnow_timestamp : nat -> string;
}.

(** A stored document, and what [to_dict] returns. *)
Abbreviation doc := (gmap string value).

Section Gateway.
Context (P : Platform).

(** ** The world *)
Record World := {
  (** [os.environ] *)
  environ : gmap string string;
  (** the paths for which [os.path.exists] holds *)
  files : gset string;
  (** the module-level global [db] *)
  db : option (client P);
  (** the remote database: collection name, document identifier, fields *)
  store : gmap string (gmap string (gmap string value));
  ids_drawn : nat;
  commits : nat;
  clock_reads : nat;
  trace : list event;
}.

Definition log (e : event) (w : World) : World :=
  {| environ := environ w; files := files w; db := db w; store := store w;
     ids_drawn := ids_drawn w; commits := commits w;
     clock_reads := clock_reads w; trace := trace w ++ [e] |}.

Definition with_db (d : option (client P)) (w : World) : World :=
  {| environ := environ w; files := files w; db := d; store := store w;
     ids_drawn := ids_drawn w; commits := commits w;
     clock_reads := clock_reads w; trace := trace w |}.

Definition with_store (s : gmap string (gmap string (gmap string value)))
    (w : World) : World :=
  {| environ := environ w; files := files w; db := db w; store := s;
     ids_drawn := ids_drawn w; commits := S (commits w);
     clock_reads := clock_reads w; trace := trace w |}.

Definition draw_id (w : World) : World :=
  {| environ := environ w; files := files w; db := db w; store := store w;
     ids_drawn := S (ids_drawn w); commits := commits w;
     clock_reads := clock_reads w; trace := trace w |}.

Definition read_clock (w : World) : World :=
  {| environ := environ w; files := files w; db := db w; store := store w;
     ids_drawn := ids_drawn w; commits := commits w;
     clock_reads := S (clock_reads w); trace := trace w |}.

(** ** The monad *)
Definition M (A : Type) : Type := World -> result A * World.

Definition ret {A} (a : A) : M A := fun w => (Ok a, w).

Definition bind {A B} (m : M A) (k : A -> M B) : M B :=
  fun w =>
    match m w with
    | (Ok a, w') => k a w'
    | (Raise e, w') => (Raise e, w')
    end.

Definition raise {A} (e : exn) : M A := fun w => (Raise e, w).

(** [try: body  except Exception: handler] *)
Definition try_except {A} (body : M A) (handler : M A) : M A :=
  fun w =>
    match body w with
    | (Ok a, w') => (Ok a, w')
    | (Raise _, w') => handler w'
    end.

Notation "'do' x <- m ; k" := (bind m (fun x => k))
  (at level 10, x name, m at level 100, k at level 200).
Notation "m ;; k" := (bind m (fun _ => k))
  (at level 100, k at level 200, right associativity).

(** ** Library calls *)

(** [os.getenv] *)
Definition getenv (name : string) : M (option string) :=
  fun w => (Ok (environ w !! name), log (Getenv name) w).

(** [os.path.exists] *)
Definition path_exists (path : string) : M bool :=
  fun w => (Ok (bool_decide (path ∈ files w)), log (PathExists path) w).

Definition loads (text : string) : M json :=
  fun w => (json_loads P text, log (JsonLoads text) w).

Definition service_account_info (info : json) : M (credentials P) :=
  fun w => (from_service_account_info P info, log ServiceAccountInfo w).

Definition Client (creds : option (credentials P)) (project : json) : M (client P) :=
  fun w => (firestore_Client P (environ w) (files w) creds project,
            log (NewClient (bool_decide (is_Some creds))) w).

(** [info.get(key)]: [None] for a missing key, and no such method on
    anything but a dict. *)
Fixpoint assoc (key : string) (members : list (string * json)) : json :=
  match members with
  | [] => JNull
  | (k, v) :: rest => if decide (k = key) then v else assoc key rest
  end.

Definition dict_get (info : json) (key : string) : M json :=
  match info with
  | JObject members => ret (assoc key members)
  | _ => raise (LibraryError "AttributeError")
  end.

(** Truth value of what [os.getenv] returns: [None] and the empty string
    are false. *)
Definition truthy (o : option string) : bool :=
  match o with
  | Some s => negb (bool_decide (s = ""))
  | None => false
  end.

Definition assign_db (d : option (client P)) : M unit :=
  fun w => (Ok tt, with_db d w).

(** ** [get_db] *)

(** The body of the [try] statement. *)
Definition get_db_try : M (option (client P)) :=
  do firebase_json <- getenv "FIREBASE_CREDENTIALS_JSON";
  do cred_path <- getenv "GOOGLE_APPLICATION_CREDENTIALS";
  if truthy firebase_json then
    do info <- loads (default "" firebase_json);
    do creds <- service_account_info info;
    do project <- dict_get info "project_id";
    do c <- Client (Some creds) project;
    assign_db (Some c) ;;
    ret (Some c)
  else
    do found <- (if truthy cred_path
                 then path_exists (default "" cred_path)
                 else ret false);
    if found then
      do c <- Client None JNull;
      assign_db (Some c) ;;
      ret (Some c)
    else
      do c <- Client None JNull;
      assign_db (Some c) ;;
      ret (Some c).

(** The [except Exception] clause. *)
Definition get_db_except : M (option (client P)) :=
  assign_db None ;;
  ret None.

Definition get_db : M (option (client P)) :=
  fun w =>
    match db w with
    | Some c => (Ok (Some c), w)
    | None => try_except get_db_try get_db_except w
    end.

(** ** The document store, as the client library presents it *)

(** Order of field values in a query: timestamps among themselves by
    time, text among itself byte by byte, and any timestamp before any
    text. *)
Definition value_le (v1 v2 : value) : Prop :=
  match v1, v2 with
  | VTimestamp t1, VTimestamp t2 => (t1 ≤ t2)%Z
  | VTimestamp _, VString _ => True
  | VString _, VTimestamp _ => False
  | VString s1, VString s2 => String.le s1 s2
  end.

Definition field_le (o1 o2 : option value) : Prop :=
  match o1, o2 with
  | None, _ => True
  | Some _, None => False
  | Some v1, Some v2 => value_le v1 v2
  end.

(** Documents compare by the ordering field and, where that is equal,
    by document identifier. *)
Definition doc_le (field : string) (x y : string * doc) : Prop :=
  field_le (x.2 !! field) (y.2 !! field) ∧
  (x.2 !! field = y.2 !! field → String.le x.1 y.1).

(** A collection reference or a query built from one. *)
Record Query := {
  q_collection : string;
  q_where : list (string * value);
  q_order : option (string * direction);
}.

Record DocumentReference := {
  ref_collection : string;
  ref_id : string;
}.

(** [client.collection(name)] *)
Definition collection (name : string) : Query :=
  {| q_collection := name; q_where := []; q_order := None |}.

(** [q.where(field, "==", v)] *)
Definition where_eq (field : string) (v : value) (q : Query) : Query :=
  {| q_collection := q_collection q;
     q_where := q_where q ++ [(field, v)];
     q_order := q_order q |}.

(** [q.order_by(field, direction=dir)]; the direction defaults to
    ascending. *)
Definition order_by (field : string) (dir : direction) (q : Query) : Query :=
  {| q_collection := q_collection q;
     q_where := q_where q;
     q_order := Some (field, dir) |}.

(** A document is in the result of a query when it satisfies every
    filter and has the ordering field. *)
Definition matches (q : Query) (x : string * doc) : Prop :=
  Forall (fun fv : string * value => x.2 !! fv.1 = Some fv.2) (q_where q) ∧
  match q_order q with
  | Some (field, _) => is_Some (x.2 !! field)
  | None => True
  end.

Definition query_le (q : Query) : relation (string * doc) :=
  match q_order q with
  | None => fun x y => String.le x.1 y.1
  | Some (field, ASCENDING) => doc_le field
  | Some (field, DESCENDING) => flip (doc_le field)
  end.

Global Instance value_le_dec : RelDecision value_le.
Proof. intros [?|?] [?|?]; simpl; apply _. Defined.

Global Instance field_le_dec : RelDecision field_le.
Proof. intros [?|] [?|]; simpl; apply _. Defined.

Global Instance doc_le_dec field : RelDecision (doc_le field).
Proof. intros ??; unfold doc_le; apply _. Defined.

Global Instance matches_dec q x : Decision (matches q x).
Proof. unfold matches. destruct (q_order q) as [[??]|]; apply _. Defined.

Global Instance query_le_dec q : RelDecision (query_le q).
Proof.
  unfold query_le. destruct (q_order q) as [[? []]|]; unfold flip; intros ??; apply _.
Defined.

Definition documents (name : string) (w : World) : gmap string doc :=
  default ∅ (store w !! name).

(** [q.stream()] *)
Definition stream (q : Query) : M (list (string * doc)) :=
  fun w =>
    let hits := filter (matches q) (map_to_list (documents (q_collection q) w)) in
    (Ok (merge_sort (query_le q) hits), log (RunQuery (q_collection q)) w).

(** [snapshot.to_dict()] *)
Definition to_dict (x : string * doc) : doc := x.2.

(** [collection.document()]: a reference under a newly generated
    identifier; nothing is sent to the server. *)
Definition document (q : Query) : M DocumentReference :=
  fun w =>
    (Ok {| ref_collection := q_collection q; ref_id := auto_id P (ids_drawn w) |},
     draw_id w).

Definition resolve (now : Z) (fv : field_value) : value :=
  match fv with
  | Lit v => v
  | SERVER_TIMESTAMP => VTimestamp now
  end.

Definition commit (r : DocumentReference) (data : gmap string field_value)
    (w : World) : World :=
  let now := commit_time P (commits w) in
  let docs := documents (ref_collection r) w in
  with_store
    (<[ref_collection r := <[ref_id r := resolve now <$> data]> docs]> (store w)) w.

(** [doc_ref.set(data)]: writes the document, replacing one that is
    there. *)
Definition doc_set (r : DocumentReference) (data : gmap string field_value) : M unit :=
  fun w => (Ok tt, commit r data (log (Write (ref_collection r) (ref_id r)) w)).

(** [doc_ref.create(data)]: writes the document, and raises when one is
    there. *)
Definition doc_create (r : DocumentReference) (data : gmap string field_value) : M unit :=
  fun w =>
    let w' := log (Write (ref_collection r) (ref_id r)) w in
    match documents (ref_collection r) w !! ref_id r with
    | Some _ => (Raise (LibraryError "AlreadyExists"), w')
    | None => (Ok tt, commit r data w')
    end.

(** [collection.add(data)]: [create] under a newly generated identifier. *)
Definition add (q : Query) (data : gmap string field_value) : M DocumentReference :=
  do r <- document q;
  doc_create r data ;;
  ret r.

(** [str(datetime.utcnow().timestamp())] *)
Definition utcnow_timestamp_str : M string :=
  fun w => (Ok (utcnow_timestamp P (clock_reads w)), read_clock w).

(** ** The four operations *)

Definition create_new_chat (uid title : string) : M string :=
  do client <- get_db;
  match client with
  | None =>
      raise (HTTPException 503 "Firestore is not configured. Set GOOGLE_APPLICATION_CREDENTIALS or FIREBASE_CREDENTIALS_JSON in environment.")
  | Some _ =>
      do doc_ref <- document (collection "conversations");
      doc_set doc_ref
        {[ "id" := Lit (VString (ref_id doc_ref));
           "title" := Lit (VString title);
           "createdAt" := SERVER_TIMESTAMP;
           "uid" := Lit (VString uid) ]} ;;
      ret (ref_id doc_ref)
  end.

Definition get_chat_threads (uid : string) : M (list doc) :=
  do client <- get_db;
  match client with
  | None =>
      raise (HTTPException 503 "Firestore is not configured. Set GOOGLE_APPLICATION_CREDENTIALS or FIREBASE_CREDENTIALS_JSON in environment.")
  | Some _ =>
      let threads_ref := where_eq "uid" (VString uid) (collection "conversations") in
      do threads <- stream (order_by "createdAt" DESCENDING threads_ref);
      ret (to_dict <$> threads)
  end.

Definition store_message (uid chat_id user_msg ai_msg : string) : M bool :=
  do client <- get_db;
  match client with
  | None =>
      raise (HTTPException 503 "Firestore is not configured. Set GOOGLE_APPLICATION_CREDENTIALS or FIREBASE_CREDENTIALS_JSON in environment.")
  | Some _ =>
      do now <- utcnow_timestamp_str;
      add (collection "messages")
        {[ "id" := Lit (VString now);
           "conversationId" := Lit (VString chat_id);
           "question" := Lit (VString user_msg);
           "answer" := Lit (VString ai_msg);
           "createdAt" := SERVER_TIMESTAMP;
           "uid" := Lit (VString uid) ]} ;;
      ret true
  end.

Definition get_chat_messages (uid chat_id : string) : M (list doc) :=
  do client <- get_db;
  match client with
  | None =>
      raise (HTTPException 503 "Firestore is not configured. Set GOOGLE_APPLICATION_CREDENTIALS or FIREBASE_CREDENTIALS_JSON in environment.")
  | Some _ =>
      let messages_ref :=
        order_by "createdAt" ASCENDING
          (where_eq "conversationId" (VString chat_id) (collection "messages")) in
      do messages <- stream messages_ref;
      ret (to_dict <$> messages)
  end.

(** ** Processes

    What happens to a world over time: the web application calls into
    the module, the operator changes the environment of the running
    process, or the process is restarted, which runs [db = None] again
    and leaves the remote database as it is. *)
Inductive action :=
| CallGetDb
| CallCreateNewChat (uid title : string)
| CallGetChatThreads (uid : string)
| CallStoreMessage (uid chat_id user_msg ai_msg : string)
| CallGetChatMessages (uid chat_id : string)
| Reconfigure (env : gmap string string) (fs : gset string)
| Restart.

Definition reconfigure (env : gmap string string) (fs : gset string)
    (w : World) : World :=
  {| environ := env; files := fs; db := db w; store := store w;
     ids_drawn := ids_drawn w; commits := commits w;
     clock_reads := clock_reads w; trace := trace w |}.

Definition step (w : World) (a : action) : World :=
  match a with
  | CallGetDb => (get_db w).2
  | CallCreateNewChat uid title => (create_new_chat uid title w).2
  | CallGetChatThreads uid => (get_chat_threads uid w).2
  | CallStoreMessage uid chat_id user_msg ai_msg =>
      (store_message uid chat_id user_msg ai_msg w).2
  | CallGetChatMessages uid chat_id => (get_chat_messages uid chat_id w).2
  | Reconfigure env fs => reconfigure env fs w
  | Restart => with_db None w
  end.

Definition run (acts : list action) (w : World) : World :=
  foldl step w acts.

(** A world at the start of the first process, over an empty database. *)
Definition boot (env : gmap string string) (fs : gset string) : World :=
  {| environ := env; files := fs; db := None; store := ∅;
     ids_drawn := 0; commits := 0; clock_reads := 0; trace := [] |}.

(** ** Vocabulary of the properties *)

Definition acquisitions (w : World) : list event :=
  List.filter is_acquisition (trace w).

Definition store_accesses (w : World) : list event :=
  List.filter is_store_access (trace w).

Definition path_lookups (w : World) : list event :=
  List.filter is_path_lookup (trace w).

(** The client built from an inline credential blob, step by step:
    parse the blob, build service-account credentials from the result,
    take its ["project_id"], construct the client from both. *)
Definition client_from_blob (env : gmap string string) (fs : gset string)
    (text : string) : result (client P) :=
  match json_loads P text with
  | Raise e => Raise e
  | Ok info =>
      match from_service_account_info P info with
      | Raise e => Raise e
      | Ok creds =>
          match info with
          | JObject members =>
              firestore_Client P env fs (Some creds) (assoc "project_id" members)
          | _ => Raise (LibraryError "AttributeError")
          end
      end
  end.

(** The client built by looking for default credentials. *)
Definition client_by_discovery (env : gmap string string) (fs : gset string)
    : result (client P) :=
  firestore_Client P env fs None JNull.

(** A handle from an attempt to build a client: a failure is no handle. *)
Definition handle_of (r : result (client P)) : result (option (client P)) :=
  match r with
  | Ok c => Ok (Some c)
  | Raise _ => Ok None
  end.

(** What acquiring a handle leaves alone: everything but [db] and the
    log. *)
Record frame (w w1 : World) : Prop := {
  frame_environ : environ w1 = environ w;
  frame_files : files w1 = files w;
  frame_store : store w1 = store w;
  frame_ids : ids_drawn w1 = ids_drawn w;
  frame_commits : commits w1 = commits w;
  frame_clock : clock_reads w1 = clock_reads w;
}.

(** The creation time of a record. *)
Definition created_at (d : doc) : option Z :=
  match d !! "createdAt" with
  | Some (VTimestamp t) => Some t
  | _ => None
  end.

(** [d1] was created strictly before [d2]. *)
Definition created_before (d1 d2 : doc) : Prop :=
  ∃ t1 t2, created_at d1 = Some t1 ∧ created_at d2 = Some t2 ∧ t1 < t2.

(** A thread record and a message record, as stored. *)
Definition thread_record (id title uid : string) (t : Z) : doc :=
  {[ "id" := VString id;
     "title" := VString title;
     "createdAt" := VTimestamp t;
     "uid" := VString uid ]}.

Definition message_record (id chat_id question answer uid : string) (t : Z) : doc :=
  {[ "id" := VString id;
     "conversationId" := VString chat_id;
     "question" := VString question;
     "answer" := VString answer;
     "createdAt" := VTimestamp t;
     "uid" := VString uid ]}.

(** The records of a collection that carry value [v] in field [field],
    in no particular order. *)
Definition records_with (name field : string) (v : value) (w : World) : list doc :=
  (filter (fun x : string * doc => x.2 !! field = Some v)
          (map_to_list (documents name w))).*2.

(** What the platform promises: generated identifiers are not empty and
    never repeat, and the server clock moves forward from one committed
    write to the next. *)
Record Reliable : Prop := {
  auto_id_nonempty : ∀ n, auto_id P n ≠ "";
  auto_id_inj : ∀ n m, auto_id P n = auto_id P m → n = m;
  commit_time_mono : ∀ n, commit_time P n < commit_time P (S n);
}.

(** The state of a database that only this module has written to: every
    document sits under a generated identifier, carries the time of its
    commit, and no two documents of a collection were committed at the
    same time. *)
Record store_inv (w : World) : Prop := {
  inv_ids : ∀ name id d,
    documents name w !! id = Some d →
    ∃ k, (k < ids_drawn w)%nat ∧ id = auto_id P k;
  inv_stamp : ∀ name id d,
    documents name w !! id = Some d →
    ∃ t, d !! "createdAt" = Some (VTimestamp t) ∧ t < commit_time P (commits w);
  inv_distinct : ∀ name id1 id2 d1 d2,
    documents name w !! id1 = Some d1 →
    documents name w !! id2 = Some d2 →
    d1 !! "createdAt" = d2 !! "createdAt" → id1 = id2;
}.

(** The documents a query returns from a world, as field mappings. *)
Definition query_result (q : Query) (w : World) : list doc :=
  to_dict <$> merge_sort (query_le q)
                (filter (matches q) (map_to_list (documents (q_collection q) w))).

(** The shape of the database: threads in ["conversations"], each with
    its own identifier in ["id"], messages in ["messages"], and no other
    collection. *)
Record schema_inv (w : World) : Prop := {
  schema_threads : ∀ id d,
    documents "conversations" w !! id = Some d →
    ∃ title uid t, d = thread_record id title uid t;
  schema_messages : ∀ id d,
    documents "messages" w !! id = Some d →
    ∃ mid chat_id question answer uid t,
      d = message_record mid chat_id question answer uid t;
  schema_collections : ∀ name,
    name ≠ "conversations" → name ≠ "messages" → documents name w = ∅;
}.

End Gateway.

Arguments Build_World {P}.
Arguments environ {P}.
Arguments files {P}.
Arguments db {P}.
Arguments store {P}.
Arguments ids_drawn {P}.
Arguments commits {P}.
Arguments clock_reads {P}.
Arguments trace {P}.

(** ** A platform to run the module on *)
Module Demo.

Definition blob : string := "{project_id: demo}".

(** Credentials are the parsed service-account info; a client records
    the credentials and the project it was built with.  Without explicit
    credentials, a client can be built when the credential file named in
    the environment exists. *)
Definition platform : Platform := {|
  credentials := json;
  client := option json * json;
  json_loads := fun s =>
    if decide (s = blob) then Ok (JObject [("project_id", JString "demo")])
    else Raise (LibraryError "JSONDecodeError");
  from_service_account_info := fun info =>
    match info with
    | JObject _ => Ok info
    | _ => Raise (LibraryError "ValueError")
    end;
  firestore_Client := fun env fs creds project =>
    match creds with
    | Some c => Ok (Some c, project)
    | None =>
        match env !! "GOOGLE_APPLICATION_CREDENTIALS" with
        | Some p => if decide (p ∈ fs) then Ok (None, JNull)
                    else Raise (LibraryError "DefaultCredentialsError")
        | None => Raise (LibraryError "DefaultCredentialsError")
        end
    end;
  auto_id := fun n => "doc" +:+ pretty n;
  commit_time := fun n => 1000 + Z.of_nat n;
  utcnow_timestamp := fun n => pretty (1700000000 + Z.of_nat n) +:+ ".0";
|}.

(** No credentials at all. *)
Definition bare : World platform := boot platform ∅ ∅.

(** The service-account blob in the environment. *)
Definition configured : World platform :=
  boot platform {[ "FIREBASE_CREDENTIALS_JSON" := blob ]} ∅.

(** The handle acquired from the blob. *)
Definition handle : client platform :=
  (Some (JObject [("project_id", JString "demo")]), JString "demo").

(** The blob variable set to the empty string, next to a credential
    file that exists. *)
Definition empty_blob : World platform :=
  boot platform
    {[ "FIREBASE_CREDENTIALS_JSON" := "";
       "GOOGLE_APPLICATION_CREDENTIALS" := "/etc/creds.json" ]}
    {[ "/etc/creds.json" ]}.

(** A process that has served a few requests: three threads of two
    users, and one message in a thread that was never created. *)
Definition busy : World platform :=
  run platform
    [ CallCreateNewChat "alice" "first";
      CallCreateNewChat "bob" "other";
      CallCreateNewChat "alice" "second";
      CallStoreMessage "alice" "no-such-thread" "ping" "pong" ]
    configured.

(** A second platform: a blob without a project, and a process clock
    too coarse to tell two readings apart. *)
Definition coarse : Platform := {|
  credentials := json;
  client := option json * json;
  json_loads := fun s =>
    if decide (s = "{}") then Ok (JObject [])
    else Raise (LibraryError "JSONDecodeError");
  from_service_account_info := from_service_account_info platform;
  firestore_Client := firestore_Client platform;
  auto_id := auto_id platform;
  commit_time := commit_time platform;
  utcnow_timestamp := fun _ => "1700000000.0";
|}.

(** A blob that does not parse, next to a credential file that exists. *)
Definition bad_blob : World platform :=
  boot platform
    {[ "FIREBASE_CREDENTIALS_JSON" := "not json";
       "GOOGLE_APPLICATION_CREDENTIALS" := "/etc/creds.json" ]}
    {[ "/etc/creds.json" ]}.

(** A blob without a project. *)
Definition no_project : World coarse :=
  boot coarse {[ "FIREBASE_CREDENTIALS_JSON" := "{}" ]} ∅.

(** A process on the coarse platform after one message. *)
Definition chatting : World coarse :=
  run coarse [ CallStoreMessage "alice" "doc9" "ping" "pong" ] no_project.

End Demo.

(** * Properties *)

(** ** The order of query results *)

Global Instance value_le_total : Total value_le.
Proof.
  intros [t1|s1] [t2|s2]; simpl; auto.
  - lia.
  - apply (total String.le).
Qed.

Global Instance value_le_trans : Transitive value_le.
Proof.
  intros [t1|s1] [t2|s2] [t3|s3]; simpl; auto; try lia; try tauto.
  apply (transitivity (R := String.le)).
Qed.

Global Instance value_le_antisym : AntiSymm (=) value_le.
Proof.
  intros [t1|s1] [t2|s2]; simpl; try tauto.
  - intros. f_equal. lia.
  - intros H1 H2. f_equal. by apply (anti_symm String.le).
Qed.

Global Instance field_le_total : Total field_le.
Proof. intros [v1|] [v2|]; simpl; auto. apply (total value_le). Qed.

Global Instance field_le_trans : Transitive field_le.
Proof.
  intros [v1|] [v2|] [v3|]; simpl; auto; try tauto.
  apply (transitivity (R := value_le)).
Qed.

Global Instance field_le_antisym : AntiSymm (=) field_le.
Proof.
  intros [v1|] [v2|]; simpl; try tauto.
  intros H1 H2. f_equal. by apply (anti_symm value_le).
Qed.

Lemma field_le_refl o : field_le o o.
Proof. destruct (total field_le o o); assumption. Qed.

Global Instance doc_le_total field : Total (doc_le field).
Proof.
  intros x y. unfold doc_le.
  destruct (decide (x.2 !! field = y.2 !! field)) as [E|N].
  - rewrite E.
    destruct (total String.le x.1 y.1); [left|right];
      (split; [apply field_le_refl | done]).
  - destruct (total field_le (x.2 !! field) (y.2 !! field)); [left|right];
      (split; [done | congruence]).
Qed.

Global Instance doc_le_trans field : Transitive (doc_le field).
Proof.
  intros x y z [Hxy Ixy] [Hyz Iyz]. split.
  - by etrans.
  - intros E. rewrite E in Hxy.
    assert (y.2 !! field = z.2 !! field) as Eyz
      by (by apply (anti_symm field_le)).
    etrans; [apply Ixy; congruence | by apply Iyz].
Qed.

Global Instance query_le_total q : Total (query_le q).
Proof.
  unfold query_le. destruct (q_order q) as [[field []]|].
  - apply _.
  - intros x y. destruct (total (doc_le field) x y); [right|left]; done.
  - intros x y. apply (total String.le).
Qed.

Global Instance query_le_trans q : Transitive (query_le q).
Proof.
  unfold query_le. destruct (q_order q) as [[field []]|].
  - apply _.
  - intros x y z ??. unfold flip in *. by etrans.
  - intros x y z ??. by etrans.
Qed.

Section Properties.
Context (P : Platform).

Implicit Types w : World P.

(** ** The handle *)

Ltac unfold_get_db :=
  unfold get_db, try_except, get_db_try, get_db_except, getenv, path_exists,
    loads, service_account_info, Client, dict_get, assign_db in *;
  unfold bind, ret, raise in *.

Lemma frame_documents w w1 name :
  frame P w w1 → documents P name w1 = documents P name w.
Proof. intros [_ _ E _ _ _]. unfold documents. by rewrite E. Qed.

Lemma get_db_cached w c : db w = Some c → get_db P w = (Ok (Some c), w).
Proof. intros E. unfold get_db. by rewrite E. Qed.

Lemma get_db_returns_db w r w1 :
  get_db P w = (r, w1) → r = Ok (db w1).
Proof.
  unfold_get_db. intros H.
  repeat (case_match; simplify_eq/=); congruence.
Qed.

Lemma get_db_frame w r w1 :
  get_db P w = (r, w1) →
  frame P w w1 ∧
  ∃ evs, trace w1 = (trace w ++ evs)%list ∧ forallb is_acquisition evs = true.
Proof.
  unfold_get_db. intros H.
  repeat (case_match; simplify_eq/=);
    (split; [by constructor |
             eexists; split; [rewrite <- ?app_assoc; simpl; try reflexivity;
                              symmetry; apply app_nil_r | reflexivity]]).
Qed.

(** ** Operations without a handle *)

Ltac unfold_ops :=
  unfold create_new_chat, get_chat_threads, store_message, get_chat_messages,
    add, document, doc_set, doc_create, stream, utcnow_timestamp_str in *;
  unfold bind, ret, raise in *.

(** C1: when [get_db] returns [None], each of the four operations raises
    [HTTPException] with status 503 and one and the same message, in the
    world [get_db] left; the document store is as it was and nothing was
    read from it or written to it. *)
Theorem unavailable_is_503 w w1 uid title chat_id user_msg ai_msg :
  get_db P w = (Ok None, w1) →
  let unavailable :=
    HTTPException 503 "Firestore is not configured. Set GOOGLE_APPLICATION_CREDENTIALS or FIREBASE_CREDENTIALS_JSON in environment." in
  create_new_chat P uid title w = (Raise unavailable, w1) ∧
  get_chat_threads P uid w = (Raise unavailable, w1) ∧
  store_message P uid chat_id user_msg ai_msg w = (Raise unavailable, w1) ∧
  get_chat_messages P uid chat_id w = (Raise unavailable, w1) ∧
  store w1 = store w ∧
  commits w1 = commits w ∧
  store_accesses P w1 = store_accesses P w.
Proof.
  intros Hget unavailable.
  destruct (get_db_frame _ _ _ Hget) as [Hframe (evs & Htrace & Hacq)].
  unfold_ops. rewrite Hget.
  repeat split; try reflexivity; try apply Hframe.
  unfold store_accesses. rewrite Htrace, List.filter_app.
  assert (List.filter is_store_access evs = []) as ->; [|apply app_nil_r].
  clear Htrace. induction evs as [|e evs IH]; [done|].
  simpl in Hacq. apply andb_prop in Hacq as [He Hevs].
  destruct e; simpl in *; try discriminate; auto.
Qed.

(** ** [get_db] does not raise *)

(** C2: [get_db] returns in every world, and returns a value, never an
    exception; what it returns is the handle it leaves in [db].  When
    the body of its [try] raises, whatever the exception, [db] is set to
    [None] and [None] is returned. *)
Theorem get_db_never_raises w :
  ∃ o w1,
    get_db P w = (Ok o, w1) ∧ db w1 = o ∧
    ∀ e w', db w = None → get_db_try P w = (Raise e, w') →
            o = None ∧ w1 = with_db P None w'.
Proof.
  destruct (get_db P w) as [r w1] eqn:Hget.
  pose proof (get_db_returns_db _ _ _ Hget) as ->.
  exists (db w1), w1. split; [done|]. split; [done|].
  intros e w' Hdb Htry. unfold get_db, try_except in Hget.
  rewrite Hdb, Htry in Hget. unfold_get_db. by simplify_eq/=.
Qed.

(** ** The handle over the life of a process *)

Lemma step_keeps_handle w a c :
  db w = Some c → a ≠ Restart →
  db (step P w a) = Some c ∧ acquisitions P (step P w a) = acquisitions P w.
Proof.
  intros Hdb Ha. pose proof (get_db_cached _ _ Hdb) as Hget.
  destruct a; simpl; try done; unfold_ops; rewrite ?Hget; simpl;
    repeat (case_match; simplify_eq/=); unfold acquisitions, commit; simpl;
    rewrite ?List.filter_app; simpl; rewrite ?app_nil_r; done.
Qed.

Lemma run_keeps_handle acts w c :
  db w = Some c → Forall (fun a => a ≠ Restart) acts →
  db (run P acts w) = Some c ∧ acquisitions P (run P acts w) = acquisitions P w.
Proof.
  intros Hdb Hacts. revert w Hdb.
  induction Hacts as [|a acts Ha _ IH]; intros w Hdb; [done|].
  destruct (step_keeps_handle w a c Hdb Ha) as [Hdb' Hacq].
  destruct (IH _ Hdb') as [? ?]. simpl. split; [done | congruence].
Qed.

Lemma get_db_try_reads_environment w r w' :
  get_db_try P w = (r, w') →
  ∃ evs, trace w' =
         (trace w ++ Getenv "FIREBASE_CREDENTIALS_JSON"
                  :: Getenv "GOOGLE_APPLICATION_CREDENTIALS" :: evs)%list.
Proof.
  unfold_get_db. intros H.
  repeat (case_match; simplify_eq/=);
    rewrite <- ?app_assoc; simpl; eexists; reflexivity.
Qed.

(** C3, as the code has it: a handle that was acquired stays in [db] for
    the rest of the process, whatever is called and however the
    environment changes, and no later call takes part in acquisition
    again.  A failed acquisition leaves [db] at [None], which is also
    the state before the first attempt: the next [get_db] runs the whole
    acquisition again, reading the environment as it is then. *)
Theorem get_db_caches_success_only w o w1 :
  get_db P w = (Ok o, w1) →
  match o with
  | Some c =>
      ∀ acts, Forall (fun a => a ≠ Restart) acts →
        let w2 := run P acts w1 in
        get_db P w2 = (Ok (Some c), w2) ∧
        acquisitions P w2 = acquisitions P w1
  | None =>
      db w1 = None ∧
      ∀ env fs,
        let w2 := reconfigure P env fs w1 in
        get_db P w2 = try_except P (get_db_try P) (get_db_except P) w2 ∧
        ∃ evs, trace (get_db P w2).2 =
               (trace w2 ++ Getenv "FIREBASE_CREDENTIALS_JSON"
                         :: Getenv "GOOGLE_APPLICATION_CREDENTIALS" :: evs)%list
  end.
Proof.
  intros Hget. pose proof (get_db_returns_db _ _ _ Hget) as Hr.
  injection Hr as ->. destruct (db w1) as [c|] eqn:Hdb.
  - intros acts Hacts w2.
    destruct (run_keeps_handle acts w1 c Hdb Hacts) as [Hdb2 Hacq].
    split; [by apply get_db_cached | done].
  - split; [done|]. intros env fs w2.
    assert (get_db P w2 = try_except P (get_db_try P) (get_db_except P) w2) as E.
    { unfold get_db. subst w2. simpl. by rewrite Hdb. }
    split; [done|]. rewrite E. unfold try_except.
    destruct (get_db_try P w2) as [[c|e] w3] eqn:Htry;
      destruct (get_db_try_reads_environment _ _ _ Htry) as [evs Hevs];
      exists evs; simpl; done.
Qed.

(** ** Where the credentials come from *)

Lemma path_lookups_log w e :
  path_lookups P (log P e w) =
  (path_lookups P w ++ if is_path_lookup e then [e] else [])%list.
Proof.
  unfold path_lookups. simpl. rewrite List.filter_app. simpl.
  by destruct (is_path_lookup e).
Qed.

Lemma path_lookups_with_db w d :
  path_lookups P (with_db P d w) = path_lookups P w.
Proof. done. Qed.

(** C4: acquisition follows a fixed precedence.  When the inline blob
    variable is set, the client is the one built from the blob (parsed,
    turned into service-account credentials, with the project taken from
    its ["project_id"]), or no handle when one of these steps raises,
    and the credential file path is not consulted: [os.path.exists] is
    never called.  Otherwise the client is built by default-credential
    discovery: after the credential file path has been looked up, when
    that variable is set, and with the same constructor call whether the
    file exists or not.  A variable is set, here as in the docstring of
    [get_db], when [if firebase_json:] takes it for true: [truthy]. *)
Theorem get_db_precedence w :
  db w = None →
  let firebase_json := environ w !! "FIREBASE_CREDENTIALS_JSON" in
  let cred_path := environ w !! "GOOGLE_APPLICATION_CREDENTIALS" in
  let w1 := (get_db P w).2 in
  if truthy firebase_json then
    (get_db P w).1 =
      handle_of P (client_from_blob P (environ w) (files w) (default "" firebase_json)) ∧
    path_lookups P w1 = path_lookups P w
  else
    (get_db P w).1 = handle_of P (client_by_discovery P (environ w) (files w)) ∧
    path_lookups P w1 =
      (path_lookups P w ++
       if truthy cred_path then [PathExists (default "" cred_path)] else [])%list.
Proof.
  intros Hdb. simpl.
  unfold get_db, client_from_blob, client_by_discovery, handle_of. rewrite Hdb.
  unfold_get_db. simpl.
  repeat (case_match; simplify_eq/=);
    rewrite ?path_lookups_with_db, ?path_lookups_log; simpl;
    rewrite ?app_nil_r; try done; try congruence.
Qed.

(** ** The invariant of the store *)

Lemma documents_commit r data w name :
  documents P name (commit P r data w) =
  if decide (name = ref_collection r)
  then <[ref_id r := resolve (commit_time P (commits w)) <$> data]>
         (documents P (ref_collection r) w)
  else documents P name w.
Proof.
  unfold documents, commit. simpl. case_decide as E.
  - subst name. by rewrite lookup_insert_eq.
  - by rewrite lookup_insert_ne.
Qed.

Lemma store_inv_same_store w w1 :
  store w1 = store w → (ids_drawn w ≤ ids_drawn w1)%nat →
  commits w1 = commits w →
  store_inv P w → store_inv P w1.
Proof.
  intros Hs Hi Hc [I1 I2 I3].
  assert (∀ name, documents P name w1 = documents P name w) as Hd
    by (intros; unfold documents; by rewrite Hs).
  split.
  - intros name id d. rewrite Hd. intros H.
    destruct (I1 _ _ _ H) as (k & ? & ?). exists k. split; [lia | done].
  - intros name id d. rewrite Hd, Hc. eauto.
  - intros name id1 id2 d1 d2. rewrite !Hd. eauto.
Qed.

Lemma store_inv_frame w w1 : frame P w w1 → store_inv P w → store_inv P w1.
Proof.
  intros [_ _ Hs Hi Hc _]. apply store_inv_same_store; [done | lia | done].
Qed.

Lemma store_inv_fresh w name :
  Reliable P → store_inv P w →
  documents P name w !! auto_id P (ids_drawn w) = None.
Proof.
  intros HR [I1 _ _].
  destruct (documents P name w !! auto_id P (ids_drawn w)) as [d|] eqn:E; [|done].
  destruct (I1 _ _ _ E) as (k & Hk & Heq).
  apply (auto_id_inj P HR) in Heq. lia.
Qed.

Lemma store_inv_commit r data w :
  Reliable P → store_inv P w →
  (∃ k, (k < ids_drawn w)%nat ∧ ref_id r = auto_id P k) →
  data !! "createdAt" = Some SERVER_TIMESTAMP →
  store_inv P (commit P r data w).
Proof.
  intros HR [I1 I2 I3] Hid Hdata.
  pose proof (commit_time_mono P HR (commits w)) as Hmono.
  assert ((resolve (commit_time P (commits w)) <$> data) !! "createdAt"
          = Some (VTimestamp (commit_time P (commits w)))) as Hnew
    by (by rewrite lookup_fmap, Hdata).
  split.
  - intros name id d. rewrite documents_commit. case_decide as E; [|apply I1].
    rewrite lookup_insert. case_decide as E'; [|apply I1].
    intros _. by subst id.
  - intros name id d. rewrite documents_commit. simpl.
    case_decide as E.
    + rewrite lookup_insert. case_decide as E'.
      * intros [= <-]. eexists. split; [done | lia].
      * intros H. destruct (I2 _ _ _ H) as (t & ? & ?).
        exists t. split; [done | lia].
    + intros H. destruct (I2 _ _ _ H) as (t & ? & ?).
      exists t. split; [done | lia].
  - intros name id1 id2 d1 d2. rewrite documents_commit.
    case_decide as E; [|apply I3].
    rewrite !lookup_insert. repeat case_decide; simplify_eq/=.
    + done.
    + intros [= <-] Hold Heq. destruct (I2 _ _ _ Hold) as (t & Ht & ?).
      rewrite Ht, lookup_fmap, Hdata in Heq. simplify_eq/=. lia.
    + intros Hold [= <-] Heq. destruct (I2 _ _ _ Hold) as (t & Ht & ?).
      rewrite Ht, lookup_fmap, Hdata in Heq. simplify_eq/=. lia.
    + apply I3.
Qed.

Lemma store_inv_boot env fs : store_inv P (boot P env fs).
Proof.
  split; unfold documents; simpl; intros *; rewrite lookup_empty; simpl;
    by rewrite lookup_empty.
Qed.

Lemma create_new_chat_ok w c w1 uid title :
  get_db P w = (Ok (Some c), w1) →
  let r := {| ref_collection := "conversations";
              ref_id := auto_id P (ids_drawn w) |} in
  create_new_chat P uid title w =
    (Ok (auto_id P (ids_drawn w)),
     commit P r
       {[ "id" := Lit (VString (auto_id P (ids_drawn w)));
          "title" := Lit (VString title);
          "createdAt" := SERVER_TIMESTAMP;
          "uid" := Lit (VString uid) ]}
       (log P (Write "conversations" (auto_id P (ids_drawn w))) (draw_id P w1))).
Proof.
  intros Hget. destruct (get_db_frame _ _ _ Hget) as [[_ _ _ Hids _ _] _].
  unfold_ops. rewrite Hget. simpl. by rewrite Hids.
Qed.

Lemma store_message_ok w c w1 uid chat_id user_msg ai_msg :
  get_db P w = (Ok (Some c), w1) →
  documents P "messages" w !! auto_id P (ids_drawn w) = None →
  let r := {| ref_collection := "messages";
              ref_id := auto_id P (ids_drawn w) |} in
  store_message P uid chat_id user_msg ai_msg w =
    (Ok true,
     commit P r
       {[ "id" := Lit (VString (utcnow_timestamp P (clock_reads w)));
          "conversationId" := Lit (VString chat_id);
          "question" := Lit (VString user_msg);
          "answer" := Lit (VString ai_msg);
          "createdAt" := SERVER_TIMESTAMP;
          "uid" := Lit (VString uid) ]}
       (log P (Write "messages" (auto_id P (ids_drawn w)))
          (draw_id P (read_clock P w1)))).
Proof.
  intros Hget Hfresh.
  destruct (get_db_frame _ _ _ Hget) as [Hframe _].
  pose proof (frame_documents _ _ "messages" Hframe) as Hdocs.
  destruct Hframe as [_ _ _ Hids _ Hclock].
  unfold_ops. rewrite Hget. simpl.
  unfold documents in *. simpl. rewrite Hids, Hclock.
  rewrite Hdocs, Hfresh. done.
Qed.

Lemma step_store_inv w a :
  Reliable P → store_inv P w → store_inv P (step P w a).
Proof.
  intros HR Hinv.
  destruct (get_db P w) as [r w1] eqn:Hget.
  destruct (get_db_frame _ _ _ Hget) as [Hframe _].
  pose proof (store_inv_frame _ _ Hframe Hinv) as Hinv1.
  pose proof (get_db_returns_db _ _ _ Hget) as ->.
  destruct a; simpl.
  - by rewrite Hget.
  - destruct (db w1) as [c|] eqn:Hdb.
    + rewrite (create_new_chat_ok _ _ _ uid title Hget). simpl.
      apply store_inv_commit; [done | | | done].
      * eapply store_inv_same_store; [| | |exact Hinv1]; simpl; [done | lia | done].
      * exists (ids_drawn w). simpl. destruct Hframe. split; [lia | done].
    + unfold_ops. by rewrite Hget.
  - unfold_ops. rewrite Hget. destruct (db w1); simpl; [|done].
    eapply store_inv_same_store; [| | |exact Hinv1]; simpl; [done | lia | done].
  - destruct (db w1) as [c|] eqn:Hdb; [|unfold_ops; by rewrite Hget].
    assert (store_inv P (log P (Write "messages" (auto_id P (ids_drawn w)))
                           (draw_id P (read_clock P w1)))) as Hinv2.
    { eapply store_inv_same_store; [| | |exact Hinv1]; simpl; [done | lia | done]. }
    rewrite (store_message_ok _ _ _ uid chat_id user_msg ai_msg Hget)
      by (by apply store_inv_fresh).
    simpl. apply store_inv_commit; [done | done | | done].
    exists (ids_drawn w). simpl. destruct Hframe. split; [lia | done].
  - unfold_ops. rewrite Hget. destruct (db w1); simpl; [|done].
    eapply store_inv_same_store; [| | |exact Hinv1]; simpl; [done | lia | done].
  - eapply store_inv_same_store; [| | |exact Hinv]; simpl; [done | lia | done].
  - eapply store_inv_same_store; [| | |exact Hinv]; simpl; [done | lia | done].
Qed.

Lemma run_store_inv acts w :
  Reliable P → store_inv P w → store_inv P (run P acts w).
Proof.
  intros HR. revert w. induction acts as [|a acts IH]; intros w Hinv; [done|].
  simpl. apply IH. by apply step_store_inv.
Qed.

(** ** Listings *)

Lemma filter_iff_on {A} (P1 P2 : A → Prop)
    `{!∀ x, Decision (P1 x), !∀ x, Decision (P2 x)} (l : list A) :
  (∀ x, x ∈ l → P1 x ↔ P2 x) → filter P1 l = filter P2 l.
Proof.
  induction l as [|a l IH]; intros Hiff; [done|].
  rewrite !filter_cons, IH by (intros; apply Hiff; by right).
  pose proof (Hiff a (list_elem_of_here _ _)).
  repeat case_decide; tauto.
Qed.

Lemma strict_of_sorted {A} (R S : relation A) (l : list A) :
  StronglySorted R l → NoDup l →
  (∀ x y, x ∈ l → y ∈ l → x ≠ y → R x y → S x y) →
  StronglySorted S l.
Proof.
  induction 1 as [|x l Hl IH Hx]; intros Hnd HS; [constructor|].
  apply NoDup_cons in Hnd as [Hnotin Hnd]. constructor.
  - apply IH; [done|]. intros y z ??. apply HS; by right.
  - rewrite Forall_forall in Hx |- *. intros y Hy.
    apply HS; [by left | by right | | by apply Hx].
    intros ->. done.
Qed.

Lemma created_before_stamps (x y : string * doc) name w :
  store_inv P w →
  x ∈ map_to_list (documents P name w) →
  y ∈ map_to_list (documents P name w) →
  x ≠ y → doc_le "createdAt" x y → created_before x.2 y.2.
Proof.
  intros [_ I2 I3] Hx Hy Hne [Hle _].
  apply elem_of_map_to_list' in Hx, Hy.
  destruct (I2 _ _ _ Hx) as (t1 & Ht1 & _).
  destruct (I2 _ _ _ Hy) as (t2 & Ht2 & _).
  exists t1, t2. unfold created_at. rewrite Ht1, Ht2.
  split; [done|]. split; [done|].
  rewrite Ht1, Ht2 in Hle. simpl in Hle.
  destruct (decide (t1 = t2)) as [->|]; [|lia].
  exfalso. apply Hne.
  assert (x.1 = y.1) as E by (eapply I3; [done..|congruence]).
  destruct x, y; simpl in *. subst. congruence.
Qed.

(** What a query on one field, ordered by creation time, returns from a
    store that satisfies the invariant. *)
Lemma listing name field v dir w :
  store_inv P w →
  let q := order_by "createdAt" dir (where_eq field v (collection name)) in
  let hits := merge_sort (query_le q)
                (filter (matches q) (map_to_list (documents P name w))) in
  to_dict <$> hits ≡ₚ records_with P name field v w ∧
  StronglySorted
    (match dir with
     | ASCENDING => created_before
     | DESCENDING => flip created_before
     end) (to_dict <$> hits).
Proof.
  intros Hinv q hits.
  assert (filter (matches q) (map_to_list (documents P name w)) =
          filter (fun x : string * doc => x.2 !! field = Some v)
                 (map_to_list (documents P name w))) as Hfilter.
  { apply filter_iff_on. intros x Hx. unfold matches. simpl.
    rewrite Forall_singleton. simpl.
    apply elem_of_map_to_list' in Hx.
    destruct (inv_stamp P w Hinv _ _ _ Hx) as (t & Ht & _).
    rewrite Ht. split; [tauto | eauto]. }
  assert (hits ≡ₚ filter (fun x : string * doc => x.2 !! field = Some v)
                    (map_to_list (documents P name w))) as Hperm.
  { subst hits. by rewrite merge_sort_Permutation, Hfilter. }
  split.
  - unfold records_with. by rewrite Hperm.
  - assert (NoDup hits) as Hnd.
    { rewrite Hperm. apply NoDup_filter, NoDup_map_to_list. }
    assert (∀ x, x ∈ hits → x ∈ map_to_list (documents P name w)) as Hin.
    { intros x. rewrite Hperm, list_elem_of_filter. tauto. }
    pose proof (StronglySorted_merge_sort (query_le q)
                  (filter (matches q) (map_to_list (documents P name w))))
      as Hsorted.
    fold hits in Hsorted.
    destruct dir; unfold query_le in Hsorted; simpl in Hsorted.
    + apply StronglySorted_fmap
        with (R1 := fun x y : string * doc => created_before x.2 y.2); [done|].
      eapply strict_of_sorted; [exact Hsorted | done |].
      intros x y Hx Hy Hne Hle.
      eapply created_before_stamps; eauto.
    + apply StronglySorted_fmap
        with (R1 := fun x y : string * doc => created_before y.2 x.2); [done|].
      eapply strict_of_sorted; [exact Hsorted | done |].
      intros x y Hx Hy Hne Hle.
      eapply created_before_stamps; eauto.
Qed.

Lemma elem_of_records_with name field v w d :
  d ∈ records_with P name field v w ↔
  ∃ id, documents P name w !! id = Some d ∧ d !! field = Some v.
Proof.
  unfold records_with. rewrite list_elem_of_fmap. split.
  - intros ([id d'] & -> & Hin).
    apply list_elem_of_filter in Hin as [Hf Hin].
    apply elem_of_map_to_list in Hin. eauto.
  - intros (id & Hd & Hf). exists (id, d). split; [done|].
    apply list_elem_of_filter. split; [done|].
    by apply elem_of_map_to_list.
Qed.

Lemma sorted_split {A} (R : relation A) (l : list A) x y :
  StronglySorted R l → (∀ a b, R a b → R b a → False) →
  x ∈ l → y ∈ l → R x y →
  ∃ l0 l1 l2, l = l0 ++ x :: l1 ++ y :: l2.
Proof.
  intros Hsorted Hasym Hx Hy Hxy.
  apply list_elem_of_split in Hx as (la & lb & ->).
  apply elem_of_app in Hy as [Hy|Hy].
  - exfalso. apply (Hasym x y); [done|].
    eapply StronglySorted_app_1_elem_of; [done | done | by left].
  - apply elem_of_cons in Hy as [->|Hy]; [exfalso; by apply (Hasym x x)|].
    apply list_elem_of_split in Hy as (l1 & l2 & ->). by exists la, l1, l2.
Qed.

Lemma created_before_asym d1 d2 :
  created_before d1 d2 → created_before d2 d1 → False.
Proof.
  intros (t1 & t2 & H1 & H2 & ?) (t2' & t1' & H2' & H1' & ?).
  simplify_eq. lia.
Qed.

Lemma get_chat_threads_ok w c w1 uid :
  store_inv P w → get_db P w = (Ok (Some c), w1) →
  ∃ threads,
    get_chat_threads P uid w = (Ok threads, log P (RunQuery "conversations") w1) ∧
    threads ≡ₚ records_with P "conversations" "uid" (VString uid) w ∧
    StronglySorted (flip created_before) threads.
Proof.
  intros Hinv Hget. destruct (get_db_frame _ _ _ Hget) as [Hframe _].
  unfold_ops. rewrite Hget. simpl. eexists. split; [reflexivity|].
  rewrite (frame_documents _ _ "conversations" Hframe).
  apply (listing "conversations" "uid" (VString uid) DESCENDING w Hinv).
Qed.

Lemma get_chat_messages_ok w c w1 uid chat_id :
  store_inv P w → get_db P w = (Ok (Some c), w1) →
  ∃ messages,
    get_chat_messages P uid chat_id w = (Ok messages, log P (RunQuery "messages") w1) ∧
    messages ≡ₚ records_with P "messages" "conversationId" (VString chat_id) w ∧
    StronglySorted created_before messages.
Proof.
  intros Hinv Hget. destruct (get_db_frame _ _ _ Hget) as [Hframe _].
  unfold_ops. rewrite Hget. simpl. eexists. split; [reflexivity|].
  rewrite (frame_documents _ _ "messages" Hframe).
  apply (listing "messages" "conversationId" (VString chat_id) ASCENDING w Hinv).
Qed.

Lemma resolve_thread id title uid t :
  resolve t <$> ({[ "id" := Lit (VString id);
                    "title" := Lit (VString title);
                    "createdAt" := SERVER_TIMESTAMP;
                    "uid" := Lit (VString uid) ]} : gmap string field_value)
  = thread_record id title uid t.
Proof. unfold thread_record. by rewrite !fmap_insert, map_fmap_singleton. Qed.

Lemma resolve_message id chat_id question answer uid t :
  resolve t <$> ({[ "id" := Lit (VString id);
                    "conversationId" := Lit (VString chat_id);
                    "question" := Lit (VString question);
                    "answer" := Lit (VString answer);
                    "createdAt" := SERVER_TIMESTAMP;
                    "uid" := Lit (VString uid) ]} : gmap string field_value)
  = message_record id chat_id question answer uid t.
Proof. unfold message_record. by rewrite !fmap_insert, map_fmap_singleton. Qed.

(** ** Threads *)

(** C5: with a handle, [create_new_chat] returns the identifier the
    client generated, which is not empty; the store afterwards is the
    store before with one record more in ["conversations"], under that
    identifier, which was free: its ["id"] is the identifier, its title
    and user are the ones given, its creation time is the time of the
    server at the commit.  [get_chat_threads] for the same user, called
    next, returns that record among the others. *)
Theorem create_new_chat_inserts_thread w c w1 uid title :
  Reliable P → store_inv P w → get_db P w = (Ok (Some c), w1) →
  let tid := auto_id P (ids_drawn w) in
  let record := thread_record tid title uid (commit_time P (commits w)) in
  ∃ w2,
    create_new_chat P uid title w = (Ok tid, w2) ∧
    tid ≠ "" ∧
    documents P "conversations" w !! tid = None ∧
    store w2 =
      <["conversations" := <[tid := record]> (documents P "conversations" w)]>
        (store w) ∧
    record !! "id" = Some (VString tid) ∧
    ∃ threads w3,
      get_chat_threads P uid w2 = (Ok threads, w3) ∧ record ∈ threads.
Proof.
  intros HR Hinv Hget tid record.
  destruct (get_db_frame _ _ _ Hget) as [Hframe _].
  pose proof (frame_documents _ _ "conversations" Hframe) as Hdocs.
  pose proof (get_db_returns_db _ _ _ Hget) as [= Hdb].
  pose proof (create_new_chat_ok _ _ _ uid title Hget) as Hrun. simpl in Hrun.
  eexists. split; [exact Hrun|].
  split; [apply (auto_id_nonempty P HR)|].
  split; [by apply store_inv_fresh|].
  assert (Hstore : ∀ w', w' = commit P
            {| ref_collection := "conversations"; ref_id := tid |}
            {[ "id" := Lit (VString tid); "title" := Lit (VString title);
               "createdAt" := SERVER_TIMESTAMP; "uid" := Lit (VString uid) ]}
            (log P (Write "conversations" tid) (draw_id P w1)) →
          store w' =
            <["conversations" := <[tid := record]> (documents P "conversations" w)]>
              (store w)).
  { intros w' ->. unfold commit. simpl.
    destruct Hframe as [_ _ Hs _ Hc _].
    unfold documents. simpl. rewrite Hs, Hc. by rewrite resolve_thread. }
  split; [by apply Hstore|].
  split; [done|].
  set (w2 := commit P _ _ _) in *.
  assert (store_inv P w2) as Hinv2.
  { replace w2 with (step P w (CallCreateNewChat uid title))
      by (simpl; by rewrite Hrun).
    by apply step_store_inv. }
  assert (get_db P w2 = (Ok (Some c), w2)) as Hget2.
  { apply get_db_cached. subst w2. simpl. done. }
  destruct (get_chat_threads_ok _ _ _ uid Hinv2 Hget2) as (threads & Hlist & Hperm & _).
  exists threads, (log P (RunQuery "conversations") w2). split; [done|].
  rewrite Hperm. apply elem_of_records_with. exists tid. split; [|done].
  unfold documents. rewrite (Hstore w2 eq_refl).
  by rewrite lookup_insert_eq; simpl; rewrite lookup_insert_eq.
Qed.

(** C6: with a handle, [get_chat_threads] returns the records of
    ["conversations"] whose ["uid"] is the given user, each once, as
    field mappings, every one created strictly after the one that
    follows it; for a user without threads it returns the empty list. *)
Theorem get_chat_threads_newest_first w c w1 uid :
  store_inv P w → get_db P w = (Ok (Some c), w1) →
  ∃ threads,
    get_chat_threads P uid w = (Ok threads, log P (RunQuery "conversations") w1) ∧
    threads ≡ₚ records_with P "conversations" "uid" (VString uid) w ∧
    StronglySorted (flip created_before) threads ∧
    (records_with P "conversations" "uid" (VString uid) w = [] → threads = []).
Proof.
  intros Hinv Hget.
  destruct (get_chat_threads_ok _ _ _ uid Hinv Hget) as (threads & Hrun & Hperm & Hsorted).
  exists threads. repeat split; try done.
  intros E. rewrite E in Hperm. by apply Permutation_nil_r.
Qed.

(** ** Messages *)

Lemma store_message_effect w c w1 uid chat_id user_msg ai_msg :
  Reliable P → store_inv P w → get_db P w = (Ok (Some c), w1) →
  let mid := auto_id P (ids_drawn w) in
  let record :=
    message_record (utcnow_timestamp P (clock_reads w)) chat_id user_msg ai_msg
      uid (commit_time P (commits w)) in
  ∃ w2,
    store_message P uid chat_id user_msg ai_msg w = (Ok true, w2) ∧
    documents P "messages" w !! mid = None ∧
    store w2 =
      <["messages" := <[mid := record]> (documents P "messages" w)]> (store w) ∧
    trace w2 = trace w1 ++ [Write "messages" mid] ∧
    (db w2 = Some c ∧ ids_drawn w2 = S (ids_drawn w) ∧
     commits w2 = S (commits w) ∧ clock_reads w2 = S (clock_reads w)) ∧
    store_inv P w2.
Proof.
  intros HR Hinv Hget mid record.
  destruct (get_db_frame _ _ _ Hget) as [Hframe _].
  pose proof (get_db_returns_db _ _ _ Hget) as [= Hdb].
  pose proof (store_inv_fresh w "messages" HR Hinv) as Hfresh.
  pose proof (store_message_ok _ _ _ uid chat_id user_msg ai_msg Hget Hfresh) as Hrun.
  simpl in Hrun.
  eexists. split; [exact Hrun|]. split; [done|].
  destruct Hframe as [_ _ Hs Hi Hc Hk].
  split.
  { unfold commit, documents. simpl. rewrite Hs, Hc. by rewrite resolve_message. }
  split; [done|].
  split; [simpl; by rewrite Hi, Hc, Hk|].
  match goal with
  | |- store_inv P ?w2 =>
      replace w2 with (step P w (CallStoreMessage uid chat_id user_msg ai_msg))
        by (simpl; by rewrite Hrun)
  end.
  by apply step_store_inv.
Qed.

Lemma store_accesses_app w w1 evs :
  trace w1 = trace w ++ evs →
  store_accesses P w1 = store_accesses P w ++ List.filter is_store_access evs.
Proof. unfold store_accesses. intros ->. apply List.filter_app. Qed.

(** C8: with a handle, [store_message] returns [True]; the store
    afterwards is the store before with one record more in ["messages"],
    under an identifier that was free.  The ["id"] of the record is the
    text of the process clock, read in the process; the thread, the
    question, the answer and the user are the ones given, and the
    creation time is the time of the server at the commit. *)
Theorem store_message_inserts_message w c w1 uid chat_id user_msg ai_msg :
  Reliable P → store_inv P w → get_db P w = (Ok (Some c), w1) →
  let mid := auto_id P (ids_drawn w) in
  let record :=
    message_record (utcnow_timestamp P (clock_reads w)) chat_id user_msg ai_msg
      uid (commit_time P (commits w)) in
  ∃ w2,
    store_message P uid chat_id user_msg ai_msg w = (Ok true, w2) ∧
    documents P "messages" w !! mid = None ∧
    store w2 =
      <["messages" := <[mid := record]> (documents P "messages" w)]> (store w) ∧
    record !! "id" = Some (VString (utcnow_timestamp P (clock_reads w))) ∧
    record !! "createdAt" = Some (VTimestamp (commit_time P (commits w))).
Proof.
  intros HR Hinv Hget mid record.
  destruct (store_message_effect _ _ _ uid chat_id user_msg ai_msg HR Hinv Hget)
    as (w2 & Hrun & Hfresh & Hstore & _).
  exists w2. done.
Qed.

Lemma message_listed w w2 mid record chat_id :
  store w2 = <["messages" := <[mid := record]> (documents P "messages" w)]> (store w) →
  record !! "conversationId" = Some (VString chat_id) →
  record ∈ records_with P "messages" "conversationId" (VString chat_id) w2.
Proof.
  intros Hstore Hfield. apply elem_of_records_with. exists mid.
  split; [|done]. unfold documents at 1. rewrite Hstore.
  by rewrite lookup_insert_eq; simpl; rewrite lookup_insert_eq.
Qed.

(** C9: [store_message] looks at no thread.  With a handle it succeeds
    for every thread identifier, one without a thread record included:
    the only access to the store is the write of the message, the
    threads are as they were, and [get_chat_messages] for that thread
    identifier, called next by anyone, returns the message. *)
Theorem store_message_needs_no_thread w c w1 uid chat_id user_msg ai_msg reader :
  Reliable P → store_inv P w → get_db P w = (Ok (Some c), w1) →
  let record :=
    message_record (utcnow_timestamp P (clock_reads w)) chat_id user_msg ai_msg
      uid (commit_time P (commits w)) in
  ∃ w2,
    store_message P uid chat_id user_msg ai_msg w = (Ok true, w2) ∧
    store_accesses P w2 =
      store_accesses P w ++ [Write "messages" (auto_id P (ids_drawn w))] ∧
    documents P "conversations" w2 = documents P "conversations" w ∧
    ∃ messages w3,
      get_chat_messages P reader chat_id w2 = (Ok messages, w3) ∧
      record ∈ messages.
Proof.
  intros HR Hinv Hget record.
  destruct (store_message_effect _ _ _ uid chat_id user_msg ai_msg HR Hinv Hget)
    as (w2 & Hrun & Hfresh & Hstore & Htrace & (Hdb & _) & Hinv2).
  exists w2. split; [done|]. split; [|split].
  - destruct (get_db_frame _ _ _ Hget) as [_ (evs & Hevs & Hacq)].
    rewrite (store_accesses_app w w2 (evs ++ [Write "messages" (auto_id P (ids_drawn w))]))
      by (by rewrite Htrace, Hevs, app_assoc).
    rewrite List.filter_app. simpl.
    assert (List.filter is_store_access evs = []) as ->; [|done].
    clear Hevs. induction evs as [|e evs IH]; [done|].
    simpl in Hacq. apply andb_prop in Hacq as [He Hevs].
    destruct e; simpl in *; try discriminate; auto.
  - unfold documents. rewrite Hstore. by rewrite lookup_insert_ne.
  - destruct (get_chat_messages_ok w2 c w2 reader chat_id Hinv2 (get_db_cached _ _ Hdb))
      as (messages & Hlist & Hperm & _).
    exists messages, (log P (RunQuery "messages") w2). split; [done|].
    rewrite Hperm. by eapply message_listed.
Qed.

(** C7: with a handle, [get_chat_messages] returns the records of
    ["messages"] whose ["conversationId"] is the given thread, each
    once, every one created strictly before the one that follows it.
    Two messages appended to a thread one after the other are both in
    the listing of that thread, the first before the second, and the
    first was created strictly before the second. *)
Theorem get_chat_messages_oldest_first w c w1 uid chat_id :
  Reliable P → store_inv P w → get_db P w = (Ok (Some c), w1) →
  (∃ messages,
     get_chat_messages P uid chat_id w =
       (Ok messages, log P (RunQuery "messages") w1) ∧
     messages ≡ₚ records_with P "messages" "conversationId" (VString chat_id) w ∧
     StronglySorted created_before messages) ∧
  (∀ uid1 question1 answer1 uid2 question2 answer2,
     let w2 := (store_message P uid1 chat_id question1 answer1 w).2 in
     let w3 := (store_message P uid2 chat_id question2 answer2 w2).2 in
     let first :=
       message_record (utcnow_timestamp P (clock_reads w)) chat_id
         question1 answer1 uid1 (commit_time P (commits w)) in
     let second :=
       message_record (utcnow_timestamp P (S (clock_reads w))) chat_id
         question2 answer2 uid2 (commit_time P (S (commits w))) in
     ∃ before between after w4,
       get_chat_messages P uid chat_id w3 =
         (Ok (before ++ first :: between ++ second :: after), w4) ∧
       created_before first second).
Proof.
  intros HR Hinv Hget. split; [by eapply get_chat_messages_ok|].
  intros uid1 question1 answer1 uid2 question2 answer2 w2 w3 first second.
  destruct (store_message_effect _ _ _ uid1 chat_id question1 answer1 HR Hinv Hget)
    as (w2' & Hrun2 & Hfresh2 & Hstore2 & _ & (Hdb2 & Hi2 & Hc2 & Hk2) & Hinv2).
  assert (w2 = w2') as E2 by (subst w2; by rewrite Hrun2).
  clearbody w2. subst w2'.
  destruct (store_message_effect _ _ _ uid2 chat_id question2 answer2 HR Hinv2
              (get_db_cached _ _ Hdb2))
    as (w3' & Hrun3 & Hfresh3 & Hstore3 & _ & (Hdb3 & _) & Hinv3).
  assert (w3 = w3') as E3 by (subst w3; by rewrite Hrun3).
  clearbody w3. subst w3'.
  rewrite Hi2, Hc2, Hk2 in Hstore3. fold second in Hstore3. fold first in Hstore2.
  destruct (get_chat_messages_ok w3 c w3 uid chat_id Hinv3 (get_db_cached _ _ Hdb3))
    as (messages & Hlist & Hperm & Hsorted).
  assert (created_before first second) as Hbefore.
  { exists (commit_time P (commits w)), (commit_time P (S (commits w))).
    split; [done|]. split; [done|]. apply (commit_time_mono P HR). }
  assert (second ∈ messages) as Hsecond.
  { rewrite Hperm. by eapply message_listed. }
  assert (first ∈ messages) as Hfirst.
  { rewrite Hperm. apply elem_of_records_with. exists (auto_id P (ids_drawn w)).
    split; [|done]. unfold documents at 1. rewrite Hstore3.
    rewrite lookup_insert_eq. simpl. rewrite lookup_insert_ne.
    - unfold documents. rewrite Hstore2.
      by rewrite lookup_insert_eq; simpl; rewrite lookup_insert_eq.
    - intros Heq. apply (auto_id_inj P HR) in Heq. lia. }
  destruct (sorted_split created_before messages first second
              Hsorted created_before_asym Hfirst Hsecond Hbefore)
    as (before & between & after & ->).
  by exists before, between, after, (log P (RunQuery "messages") w3).
Qed.

(** C10: [get_chat_messages] does not look at its [uid]: in every world,
    for every thread, two callers get the same result and leave the same
    world behind. *)
Theorem get_chat_messages_ignores_uid w uid1 uid2 chat_id :
  get_chat_messages P uid1 chat_id w = get_chat_messages P uid2 chat_id w.
Proof. reflexivity. Qed.

(** * Further properties of the module *)

(** ** Acquisition *)

Lemma no_store_access_in_acquisition evs :
  forallb is_acquisition evs = true → List.filter is_store_access evs = [].
Proof.
  induction evs as [|e evs IH]; [done|]. simpl.
  intros [He Hevs]%andb_prop. destruct e; simpl in *; try discriminate; auto.
Qed.

(** X1: whether it returns the cached handle, acquires one or fails,
    [get_db] changes nothing but [db] and the log: environment, store
    and counters are as before, and what it logs are calls of
    acquisition only, never a read or a write of the store. *)
Theorem get_db_only_acquires w :
  let w1 := (get_db P w).2 in
  frame P w w1 ∧
  store_accesses P w1 = store_accesses P w ∧
  ∃ evs, trace w1 = trace w ++ evs ∧ forallb is_acquisition evs = true.
Proof.
  destruct (get_db P w) as [r w1] eqn:Hget. simpl.
  destruct (get_db_frame _ _ _ Hget) as [Hframe (evs & Htrace & Hacq)].
  split; [done|]. split; [|eauto].
  rewrite (store_accesses_app w w1 evs Htrace).
  rewrite no_store_access_in_acquisition by done. apply app_nil_r.
Qed.

Lemma truthy_nonempty text : text ≠ "" → truthy (Some text) = true.
Proof. intros H. simpl. by rewrite bool_decide_false. Qed.

(** X2: a blob that is set and does not parse ends acquisition at once.
    [get_db] returns [None] after the two reads of the environment and
    the call of [json.loads]: no client is constructed and the
    credential file path is not looked at, so there is no falling back
    on default credentials. *)
Theorem get_db_bad_blob_no_fallback w text e :
  db w = None →
  environ w !! "FIREBASE_CREDENTIALS_JSON" = Some text → text ≠ "" →
  json_loads P text = Raise e →
  get_db P w =
    (Ok None,
     with_db P None
       (log P (JsonLoads text)
          (log P (Getenv "GOOGLE_APPLICATION_CREDENTIALS")
             (log P (Getenv "FIREBASE_CREDENTIALS_JSON") w)))).
Proof.
  intros Hdb Henv Htext Hloads. unfold get_db. rewrite Hdb.
  unfold_get_db. simpl. rewrite Henv, (truthy_nonempty _ Htext). simpl.
  by rewrite Hloads.
Qed.

Lemma assoc_missing key members :
  (∀ v, (key, v) ∉ members) → assoc key members = JNull.
Proof.
  induction members as [|[k v] members IH]; intros Hmiss; [done|]. simpl.
  case_decide as E.
  - subst k. exfalso. apply (Hmiss v). by left.
  - apply IH. intros v' Hin. apply (Hmiss v'). by right.
Qed.

Lemma assoc_first key v members :
  assoc key ((key, v) :: members) = v.
Proof. simpl. by rewrite decide_True. Qed.

(** X3: a blob that parses to an object without ["project_id"] is no
    error in the module: the client is constructed from the credentials
    with [None] for the project, and [get_db] returns what that
    construction gives. *)
Theorem get_db_blob_without_project w text members creds :
  db w = None →
  environ w !! "FIREBASE_CREDENTIALS_JSON" = Some text → text ≠ "" →
  json_loads P text = Ok (JObject members) →
  (∀ v, ("project_id", v) ∉ members) →
  from_service_account_info P (JObject members) = Ok creds →
  (get_db P w).1 =
    handle_of P (firestore_Client P (environ w) (files w) (Some creds) JNull) ∧
  trace (get_db P w).2 =
    trace w ++ [ Getenv "FIREBASE_CREDENTIALS_JSON";
                 Getenv "GOOGLE_APPLICATION_CREDENTIALS";
                 JsonLoads text; ServiceAccountInfo; NewClient true ].
Proof.
  intros Hdb Henv Htext Hloads Hmiss Hcreds. unfold get_db. rewrite Hdb.
  unfold_get_db. simpl. rewrite Henv, (truthy_nonempty _ Htext). simpl.
  rewrite Hloads, Hcreds. simpl. rewrite (assoc_missing _ _ Hmiss).
  destruct (firestore_Client P (environ w) (files w) (Some creds) JNull);
    simpl; rewrite <- ?app_assoc; done.
Qed.

(** ** What every history keeps *)

Lemma schema_inv_same_store w w1 :
  store w1 = store w → schema_inv P w → schema_inv P w1.
Proof.
  intros Hs [S1 S2 S3].
  assert (∀ name, documents P name w1 = documents P name w) as Hd
    by (intros; unfold documents; by rewrite Hs).
  split; intros *; rewrite Hd; eauto.
Qed.

Lemma documents_log_draw w e name :
  documents P name (log P e (draw_id P w)) = documents P name w.
Proof. done. Qed.

Lemma documents_log_draw_clock w e name :
  documents P name (log P e (draw_id P (read_clock P w))) = documents P name w.
Proof. done. Qed.

Lemma store_message_taken w c w1 uid chat_id user_msg ai_msg d :
  get_db P w = (Ok (Some c), w1) →
  documents P "messages" w !! auto_id P (ids_drawn w) = Some d →
  store_message P uid chat_id user_msg ai_msg w =
    (Raise (LibraryError "AlreadyExists"),
     log P (Write "messages" (auto_id P (ids_drawn w)))
       (draw_id P (read_clock P w1))).
Proof.
  intros Hget Htaken.
  destruct (get_db_frame _ _ _ Hget) as [Hframe _].
  pose proof (frame_documents _ _ "messages" Hframe) as Hdocs.
  destruct Hframe as [_ _ _ Hids _ Hclock].
  unfold_ops. rewrite Hget. simpl.
  unfold documents in *. simpl. rewrite Hids.
  rewrite Hdocs, Htaken. done.
Qed.

Lemma step_schema_inv w a : schema_inv P w → schema_inv P (step P w a).
Proof.
  intros Hinv.
  destruct (get_db P w) as [r w1] eqn:Hget.
  destruct (get_db_frame _ _ _ Hget) as [Hframe _].
  pose proof (frame_store P _ _ Hframe) as Hs.
  pose proof (schema_inv_same_store _ _ Hs Hinv) as Hinv1.
  pose proof (get_db_returns_db _ _ _ Hget) as ->.
  destruct a; simpl.
  - by rewrite Hget.
  - destruct (db w1) as [c|] eqn:Hdb; [|unfold_ops; by rewrite Hget].
    rewrite (create_new_chat_ok _ _ _ uid title Hget). simpl.
    destruct Hinv1 as [S1 S2 S3]. split.
    + intros id d. rewrite documents_commit, documents_log_draw.
      rewrite decide_True by done. simpl.
      rewrite lookup_insert. case_decide as E.
      * intros [= <-]. subst id. rewrite resolve_thread. eauto.
      * apply S1.
    + intros id d. rewrite documents_commit, documents_log_draw.
      rewrite decide_False by done. apply S2.
    + intros name H1 H2. rewrite documents_commit, documents_log_draw.
      rewrite decide_False by done. by apply S3.
  - unfold_ops. rewrite Hget. destruct (db w1); simpl; [|done].
    eapply schema_inv_same_store; [|exact Hinv1]. done.
  - destruct (db w1) as [c|] eqn:Hdb; [|unfold_ops; by rewrite Hget].
    destruct (documents P "messages" w !! auto_id P (ids_drawn w)) eqn:Hlook.
    { rewrite (store_message_taken _ _ _ uid chat_id user_msg ai_msg _ Hget Hlook).
      simpl. eapply schema_inv_same_store; [|exact Hinv1]. done. }
    rewrite (store_message_ok _ _ _ uid chat_id user_msg ai_msg Hget Hlook). simpl.
    destruct Hinv1 as [S1 S2 S3]. split.
    + intros id d. rewrite documents_commit, documents_log_draw_clock.
      rewrite decide_False by done. apply S1.
    + intros id d. rewrite documents_commit, documents_log_draw_clock.
      rewrite decide_True by done. simpl.
      rewrite lookup_insert. case_decide as E.
      * intros [= <-]. rewrite resolve_message. eauto 10.
      * apply S2.
    + intros name H1 H2. rewrite documents_commit, documents_log_draw_clock.
      rewrite decide_False by done. by apply S3.
  - unfold_ops. rewrite Hget. destruct (db w1); simpl; [|done].
    eapply schema_inv_same_store; [|exact Hinv1]. done.
  - eapply schema_inv_same_store; [|exact Hinv]. done.
  - eapply schema_inv_same_store; [|exact Hinv]. done.
Qed.

Lemma histories_keep_schema_aux acts env fs :
  schema_inv P (run P acts (boot P env fs)).
Proof.
  assert (schema_inv P (boot P env fs)) as Hboot.
  { split; intros *; unfold documents; simpl; rewrite lookup_empty; simpl;
      rewrite ?lookup_empty; done. }
  revert Hboot. generalize (boot P env fs).
  induction acts as [|a acts IH]; intros w Hinv; [done|].
  simpl. apply IH. by apply step_schema_inv.
Qed.

(** X4: whatever the web application calls, however the environment is
    changed and however often the process is restarted, a database that
    started empty holds threads in ["conversations"], each with its
    document identifier in its ["id"], messages in ["messages"], and
    nothing else.  This needs nothing of the platform. *)
Theorem histories_keep_schema acts env fs :
  schema_inv P (run P acts (boot P env fs)).
Proof. apply histories_keep_schema_aux. Qed.

(** X5: on a platform whose identifiers never repeat and whose server
    clock advances, every history over a database that started empty
    leaves every record with a creation time, given by the server and
    earlier than the next commit, and no two records of a collection
    with the same creation time. *)
Theorem histories_keep_store_inv acts env fs :
  Reliable P → store_inv P (run P acts (boot P env fs)).
Proof.
  intros HR. apply run_store_inv; [done | apply store_inv_boot].
Qed.

Lemma step_keeps_records w a name id d :
  Reliable P → store_inv P w →
  documents P name w !! id = Some d →
  documents P name (step P w a) !! id = Some d.
Proof.
  intros HR Hinv Hd.
  destruct (get_db P w) as [r w1] eqn:Hget.
  destruct (get_db_frame _ _ _ Hget) as [Hframe _].
  pose proof (frame_documents _ _ name Hframe) as Hdocs.
  pose proof (get_db_returns_db _ _ _ Hget) as ->.
  assert (id ≠ auto_id P (ids_drawn w)) as Hne.
  { intros ->. by rewrite (store_inv_fresh w name HR Hinv) in Hd. }
  destruct a; simpl.
  - rewrite Hget. simpl. by rewrite Hdocs.
  - destruct (db w1) as [c|] eqn:Hdb; [|unfold_ops; rewrite Hget; simpl; by rewrite Hdocs].
    rewrite (create_new_chat_ok _ _ _ uid title Hget). simpl.
    rewrite documents_commit, !documents_log_draw. simpl.
    case_decide as E; [|by rewrite Hdocs].
    subst name. rewrite lookup_insert_ne by done. by rewrite Hdocs.
  - unfold_ops. rewrite Hget. destruct (db w1); simpl; by rewrite <- Hdocs in Hd.
  - destruct (db w1) as [c|] eqn:Hdb; [|unfold_ops; rewrite Hget; simpl; by rewrite Hdocs].
    rewrite (store_message_ok _ _ _ uid chat_id user_msg ai_msg Hget)
      by (by apply store_inv_fresh).
    simpl. rewrite documents_commit, !documents_log_draw_clock. simpl.
    case_decide as E; [|by rewrite Hdocs].
    subst name. rewrite lookup_insert_ne by done. by rewrite Hdocs.
  - unfold_ops. rewrite Hget. destruct (db w1); simpl; by rewrite <- Hdocs in Hd.
  - done.
  - done.
Qed.

(** X6: the module only ever adds records.  On a platform whose
    identifiers never repeat, a record that is in the store stays there,
    under its identifier and with every field as it was, through
    whatever is called afterwards, through changes of the environment
    and through restarts. *)
Theorem records_are_never_changed acts w name id d :
  Reliable P → store_inv P w →
  documents P name w !! id = Some d →
  documents P name (run P acts w) !! id = Some d.
Proof.
  intros HR. revert w.
  induction acts as [|a acts IH]; intros w Hinv Hd; [done|].
  simpl. apply IH; [by apply step_store_inv | by apply step_keeps_records].
Qed.

(** X7: the two listings read and do not write.  In every world, with
    or without a handle, [get_chat_threads] and [get_chat_messages]
    leave environment, store and counters as they were; the one access
    to the store is the query, when there is a handle, and none when
    there is not. *)
Theorem listings_change_nothing w uid chat_id :
  let threads := get_chat_threads P uid w in
  let messages := get_chat_messages P uid chat_id w in
  frame P w threads.2 ∧
  frame P w messages.2 ∧
  store_accesses P threads.2 =
    store_accesses P w ++
    match threads.1 with Ok _ => [RunQuery "conversations"] | Raise _ => [] end ∧
  store_accesses P messages.2 =
    store_accesses P w ++
    match messages.1 with Ok _ => [RunQuery "messages"] | Raise _ => [] end.
Proof.
  destruct (get_db P w) as [r w1] eqn:Hget.
  destruct (get_db_frame _ _ _ Hget) as [Hframe (evs & Htrace & Hacq)].
  pose proof (get_db_returns_db _ _ _ Hget) as ->.
  pose proof (no_store_access_in_acquisition _ Hacq) as Hnone.
  assert (store_accesses P w1 = store_accesses P w) as Hsame.
  { rewrite (store_accesses_app w w1 evs Htrace), Hnone. apply app_nil_r. }
  unfold_ops. rewrite Hget.
  destruct (db w1) as [c|]; simpl.
  - repeat split; try apply Hframe;
      unfold store_accesses in *; simpl; rewrite List.filter_app, Hsame; done.
  - rewrite app_nil_r. done.
Qed.

(** ** How the listings grow *)

Lemma get_chat_threads_run w c w1 uid :
  get_db P w = (Ok (Some c), w1) →
  get_chat_threads P uid w =
    (Ok (query_result P
           (order_by "createdAt" DESCENDING
              (where_eq "uid" (VString uid) (collection "conversations"))) w),
     log P (RunQuery "conversations") w1).
Proof.
  intros Hget. destruct (get_db_frame _ _ _ Hget) as [Hframe _].
  unfold_ops. rewrite Hget. simpl. unfold query_result. simpl.
  by rewrite (frame_documents _ _ "conversations" Hframe).
Qed.

Lemma get_chat_messages_run w c w1 uid chat_id :
  get_db P w = (Ok (Some c), w1) →
  get_chat_messages P uid chat_id w =
    (Ok (query_result P
           (order_by "createdAt" ASCENDING
              (where_eq "conversationId" (VString chat_id) (collection "messages"))) w),
     log P (RunQuery "messages") w1).
Proof.
  intros Hget. destruct (get_db_frame _ _ _ Hget) as [Hframe _].
  unfold_ops. rewrite Hget. simpl. unfold query_result. simpl.
  by rewrite (frame_documents _ _ "messages" Hframe).
Qed.

Lemma created_sorted_unique dir (l1 l2 : list doc) :
  let R := match dir with
           | ASCENDING => created_before
           | DESCENDING => flip created_before
           end in
  StronglySorted R l1 → StronglySorted R l2 → l1 ≡ₚ l2 → l1 = l2.
Proof.
  intros R. apply StronglySorted_unique_strong.
  intros x y _ _ H1 H2. exfalso. subst R.
  destruct dir; unfold flip in *; by eapply created_before_asym.
Qed.

Lemma query_result_perm name field v dir w w' :
  store_inv P w → store_inv P w' →
  records_with P name field v w' ≡ₚ records_with P name field v w →
  query_result P (order_by "createdAt" dir (where_eq field v (collection name))) w'
  = query_result P (order_by "createdAt" dir (where_eq field v (collection name))) w.
Proof.
  intros Hinv Hinv' Hperm.
  destruct (listing name field v dir w Hinv) as [Hp Hs].
  destruct (listing name field v dir w' Hinv') as [Hp' Hs'].
  apply (created_sorted_unique dir); [done | done |].
  unfold query_result. simpl. by rewrite Hp', Hp.
Qed.

Lemma older_than_next w name field v d :
  store_inv P w → d ∈ records_with P name field v w →
  ∃ t, created_at d = Some t ∧ t < commit_time P (commits w).
Proof.
  intros Hinv (id & Hd & _)%elem_of_records_with.
  destruct (inv_stamp P w Hinv _ _ _ Hd) as (t & Ht & Hlt).
  exists t. unfold created_at. by rewrite Ht.
Qed.

Lemma query_result_newest name field v w w' record :
  store_inv P w → store_inv P w' →
  records_with P name field v w' ≡ₚ record :: records_with P name field v w →
  created_at record = Some (commit_time P (commits w)) →
  query_result P (order_by "createdAt" DESCENDING (where_eq field v (collection name))) w'
  = record ::
    query_result P (order_by "createdAt" DESCENDING (where_eq field v (collection name))) w
  ∧
  query_result P (order_by "createdAt" ASCENDING (where_eq field v (collection name))) w'
  = query_result P (order_by "createdAt" ASCENDING (where_eq field v (collection name))) w
    ++ [record].
Proof.
  intros Hinv Hinv' Hperm Hnew.
  assert (∀ d, d ∈ records_with P name field v w → created_before d record) as Hold.
  { intros d Hd. destruct (older_than_next _ _ _ _ _ Hinv Hd) as (t & Ht & Hlt).
    by exists t, (commit_time P (commits w)). }
  split.
  - destruct (listing name field v DESCENDING w Hinv) as [Hp Hs].
    destruct (listing name field v DESCENDING w' Hinv') as [Hp' Hs'].
    apply (created_sorted_unique DESCENDING); [done | |].
    + constructor; [done|]. apply Forall_forall. intros d Hd.
      apply Hold. unfold query_result in Hd. simpl in Hd. by rewrite Hp in Hd.
    + unfold query_result. simpl. by rewrite Hp', Hp.
  - destruct (listing name field v ASCENDING w Hinv) as [Hp Hs].
    destruct (listing name field v ASCENDING w' Hinv') as [Hp' Hs'].
    apply (created_sorted_unique ASCENDING); [done | |].
    + apply StronglySorted_app_2; [|done|repeat constructor].
      intros d1 d2 Hd1 ->%list_elem_of_singleton.
      apply Hold. unfold query_result in Hd1. simpl in Hd1. by rewrite Hp in Hd1.
    + unfold query_result. simpl.
      rewrite Hp', Hperm, Hp. by rewrite Permutation_cons_append.
Qed.

Lemma documents_after_insert w w2 name docs :
  store w2 = <[name := docs]> (store w) →
  documents P name w2 = docs ∧
  ∀ name', name' ≠ name → documents P name' w2 = documents P name' w.
Proof.
  intros Hstore. unfold documents. rewrite Hstore. split.
  - by rewrite lookup_insert_eq.
  - intros name' Hne. by rewrite lookup_insert_ne.
Qed.

Lemma records_with_insert name field v w w2 id record :
  store w2 = <[name := <[id := record]> (documents P name w)]> (store w) →
  documents P name w !! id = None →
  records_with P name field v w2 ≡ₚ
    (if decide (record !! field = Some v) then [record] else [])
    ++ records_with P name field v w.
Proof.
  intros Hstore Hfresh.
  destruct (documents_after_insert _ _ _ _ Hstore) as [Hdocs _].
  unfold records_with. rewrite Hdocs.
  rewrite (map_to_list_insert _ _ _ Hfresh), filter_cons. simpl.
  by case_decide.
Qed.

Lemma records_with_elsewhere name name' field v w w2 docs :
  store w2 = <[name := docs]> (store w) → name' ≠ name →
  records_with P name' field v w2 = records_with P name' field v w.
Proof.
  intros Hstore Hne.
  destruct (documents_after_insert _ _ _ _ Hstore) as [_ Hdocs].
  unfold records_with. by rewrite Hdocs.
Qed.

Lemma create_new_chat_effect w c w1 uid title :
  Reliable P → store_inv P w → get_db P w = (Ok (Some c), w1) →
  let tid := auto_id P (ids_drawn w) in
  let record := thread_record tid title uid (commit_time P (commits w)) in
  ∃ w2,
    create_new_chat P uid title w = (Ok tid, w2) ∧
    documents P "conversations" w !! tid = None ∧
    store w2 =
      <["conversations" := <[tid := record]> (documents P "conversations" w)]>
        (store w) ∧
    (db w2 = Some c ∧ ids_drawn w2 = S (ids_drawn w) ∧
     commits w2 = S (commits w) ∧ clock_reads w2 = clock_reads w) ∧
    store_inv P w2.
Proof.
  intros HR Hinv Hget tid record.
  destruct (get_db_frame _ _ _ Hget) as [Hframe _].
  pose proof (get_db_returns_db _ _ _ Hget) as [= Hdb].
  pose proof (create_new_chat_ok _ _ _ uid title Hget) as Hrun. simpl in Hrun.
  eexists. split; [exact Hrun|].
  split; [by apply store_inv_fresh|].
  destruct Hframe as [_ _ Hs Hi Hc Hk].
  split.
  { unfold commit, documents. simpl. rewrite Hs, Hc. by rewrite resolve_thread. }
  split; [simpl; by rewrite Hi, Hc, Hk|].
  match goal with
  | |- store_inv P ?w2 =>
      replace w2 with (step P w (CallCreateNewChat uid title))
        by (simpl; by rewrite Hrun)
  end.
  by apply step_store_inv.
Qed.

Lemma threads_after_create w c w1 uid title :
  Reliable P → store_inv P w → get_db P w = (Ok (Some c), w1) →
  let tid := auto_id P (ids_drawn w) in
  let record := thread_record tid title uid (commit_time P (commits w)) in
  let threads_of u :=
    query_result P (order_by "createdAt" DESCENDING
                      (where_eq "uid" (VString u) (collection "conversations"))) in
  let messages_of chat :=
    query_result P (order_by "createdAt" ASCENDING
                      (where_eq "conversationId" (VString chat) (collection "messages"))) in
  ∃ w2,
    create_new_chat P uid title w = (Ok tid, w2) ∧
    (db w2 = Some c ∧ ids_drawn w2 = S (ids_drawn w) ∧
     commits w2 = S (commits w) ∧ clock_reads w2 = clock_reads w) ∧
    store_inv P w2 ∧
    threads_of uid w2 = record :: threads_of uid w ∧
    (∀ other, other ≠ uid → threads_of other w2 = threads_of other w) ∧
    (∀ chat, messages_of chat w2 = messages_of chat w).
Proof.
  intros HR Hinv Hget tid record threads_of messages_of.
  destruct (create_new_chat_effect _ _ _ uid title HR Hinv Hget)
    as (w2 & Hrun & Hfresh & Hstore & Hcounters & Hinv2).
  exists w2. split; [done|]. split; [done|]. split; [done|].
  split; [|split].
  - pose proof (records_with_insert "conversations" "uid" (VString uid)
                  _ _ _ _ Hstore Hfresh) as Hperm.
    rewrite decide_True in Hperm by done.
    by apply (query_result_newest "conversations" "uid" (VString uid) w w2 record).
  - intros other Hne. apply query_result_perm; [done..|].
    rewrite (records_with_insert "conversations" "uid" (VString other)
               _ _ _ _ Hstore Hfresh).
    rewrite decide_False; [done|]. intros Heq. apply Hne.
    cut (Some (VString uid) = Some (VString other)); [congruence|].
    by rewrite <- Heq.
  - intros chat. apply query_result_perm; [done..|].
    by rewrite (records_with_elsewhere "conversations" "messages" _ _ _ _ _ Hstore).
Qed.

Lemma messages_after_store w c w1 uid chat_id user_msg ai_msg :
  Reliable P → store_inv P w → get_db P w = (Ok (Some c), w1) →
  let record :=
    message_record (utcnow_timestamp P (clock_reads w)) chat_id user_msg ai_msg
      uid (commit_time P (commits w)) in
  let threads_of u :=
    query_result P (order_by "createdAt" DESCENDING
                      (where_eq "uid" (VString u) (collection "conversations"))) in
  let messages_of chat :=
    query_result P (order_by "createdAt" ASCENDING
                      (where_eq "conversationId" (VString chat) (collection "messages"))) in
  ∃ w2,
    store_message P uid chat_id user_msg ai_msg w = (Ok true, w2) ∧
    (db w2 = Some c ∧ ids_drawn w2 = S (ids_drawn w) ∧
     commits w2 = S (commits w) ∧ clock_reads w2 = S (clock_reads w)) ∧
    store_inv P w2 ∧
    messages_of chat_id w2 = messages_of chat_id w ++ [record] ∧
    (∀ other, other ≠ chat_id → messages_of other w2 = messages_of other w) ∧
    (∀ u, threads_of u w2 = threads_of u w).
Proof.
  intros HR Hinv Hget record threads_of messages_of.
  destruct (store_message_effect _ _ _ uid chat_id user_msg ai_msg HR Hinv Hget)
    as (w2 & Hrun & Hfresh & Hstore & _ & Hcounters & Hinv2).
  exists w2. split; [done|]. split; [done|]. split; [done|].
  split; [|split].
  - pose proof (records_with_insert "messages" "conversationId" (VString chat_id)
                  _ _ _ _ Hstore Hfresh) as Hperm.
    rewrite decide_True in Hperm by done.
    by apply (query_result_newest "messages" "conversationId" (VString chat_id)
                w w2 record).
  - intros other Hne. apply query_result_perm; [done..|].
    rewrite (records_with_insert "messages" "conversationId" (VString other)
               _ _ _ _ Hstore Hfresh).
    rewrite decide_False; [done|]. intros Heq. apply Hne.
    cut (Some (VString chat_id) = Some (VString other)); [congruence|].
    by rewrite <- Heq.
  - intros u. apply query_result_perm; [done..|].
    by rewrite (records_with_elsewhere "messages" "conversations" _ _ _ _ _ Hstore).
Qed.

(** X8: a thread that was just created heads the listing of its user:
    [get_chat_threads], called after [create_new_chat] for the same
    user, returns the new record followed by exactly what it returned
    before, in the same order. *)
Theorem new_thread_is_listed_first w c w1 uid title :
  Reliable P → store_inv P w → get_db P w = (Ok (Some c), w1) →
  let w2 := (create_new_chat P uid title w).2 in
  let record :=
    thread_record (auto_id P (ids_drawn w)) title uid (commit_time P (commits w)) in
  ∃ old,
    (get_chat_threads P uid w).1 = Ok old ∧
    (get_chat_threads P uid w2).1 = Ok (record :: old).
Proof.
  intros HR Hinv Hget w2 record.
  destruct (threads_after_create _ _ _ uid title HR Hinv Hget)
    as (w2' & Hrun & (Hdb & _) & _ & Hnew & _).
  assert (w2 = w2') as -> by (subst w2; by rewrite Hrun).
  eexists. split.
  - by rewrite (get_chat_threads_run _ _ _ uid Hget).
  - rewrite (get_chat_threads_run _ _ _ uid (get_db_cached _ _ Hdb)). simpl.
    by rewrite Hnew.
Qed.

(** X9: a message that was just stored ends the listing of its thread:
    [get_chat_messages], called by anyone after [store_message], returns
    exactly what it returned before, in the same order, followed by the
    new record. *)
Theorem new_message_is_listed_last w c w1 uid chat_id user_msg ai_msg reader :
  Reliable P → store_inv P w → get_db P w = (Ok (Some c), w1) →
  let w2 := (store_message P uid chat_id user_msg ai_msg w).2 in
  let record :=
    message_record (utcnow_timestamp P (clock_reads w)) chat_id user_msg ai_msg
      uid (commit_time P (commits w)) in
  ∃ old,
    (get_chat_messages P reader chat_id w).1 = Ok old ∧
    (get_chat_messages P reader chat_id w2).1 = Ok (old ++ [record]).
Proof.
  intros HR Hinv Hget w2 record.
  destruct (messages_after_store _ _ _ uid chat_id user_msg ai_msg HR Hinv Hget)
    as (w2' & Hrun & (Hdb & _) & _ & Hnew & _).
  assert (w2 = w2') as -> by (subst w2; by rewrite Hrun).
  eexists. split.
  - by rewrite (get_chat_messages_run _ _ _ reader chat_id Hget).
  - rewrite (get_chat_messages_run _ _ _ reader chat_id (get_db_cached _ _ Hdb)).
    simpl. by rewrite Hnew.
Qed.

(** X10: creating a thread shows in one listing only.  After
    [create_new_chat] for a user, the threads listed for every other
    user and the messages listed for every thread are what they were
    before. *)
Theorem create_new_chat_leaves_other_listings w c w1 uid title other chat_id :
  Reliable P → store_inv P w → get_db P w = (Ok (Some c), w1) →
  let w2 := (create_new_chat P uid title w).2 in
  (other ≠ uid →
   (get_chat_threads P other w2).1 = (get_chat_threads P other w).1) ∧
  (get_chat_messages P other chat_id w2).1 = (get_chat_messages P other chat_id w).1.
Proof.
  intros HR Hinv Hget w2.
  destruct (threads_after_create _ _ _ uid title HR Hinv Hget)
    as (w2' & Hrun & (Hdb & _) & _ & _ & Hothers & Hmessages).
  assert (w2 = w2') as -> by (subst w2; by rewrite Hrun).
  split.
  - intros Hne.
    rewrite (get_chat_threads_run _ _ _ other (get_db_cached _ _ Hdb)),
      (get_chat_threads_run _ _ _ other Hget). simpl.
    by rewrite (Hothers other Hne).
  - rewrite (get_chat_messages_run _ _ _ other chat_id (get_db_cached _ _ Hdb)),
      (get_chat_messages_run _ _ _ other chat_id Hget). simpl.
    by rewrite Hmessages.
Qed.

(** X11: storing a message shows in one listing only.  After
    [store_message] for a thread, the messages listed for every other
    thread and the threads listed for every user are what they were
    before. *)
Theorem store_message_leaves_other_listings
    w c w1 uid chat_id user_msg ai_msg reader other :
  Reliable P → store_inv P w → get_db P w = (Ok (Some c), w1) →
  let w2 := (store_message P uid chat_id user_msg ai_msg w).2 in
  (other ≠ chat_id →
   (get_chat_messages P reader other w2).1 = (get_chat_messages P reader other w).1) ∧
  (get_chat_threads P reader w2).1 = (get_chat_threads P reader w).1.
Proof.
  intros HR Hinv Hget w2.
  destruct (messages_after_store _ _ _ uid chat_id user_msg ai_msg HR Hinv Hget)
    as (w2' & Hrun & (Hdb & _) & _ & _ & Hothers & Hthreads).
  assert (w2 = w2') as -> by (subst w2; by rewrite Hrun).
  split.
  - intros Hne.
    rewrite (get_chat_messages_run _ _ _ reader other (get_db_cached _ _ Hdb)),
      (get_chat_messages_run _ _ _ reader other Hget). simpl.
    by rewrite (Hothers other Hne).
  - rewrite (get_chat_threads_run _ _ _ reader (get_db_cached _ _ Hdb)),
      (get_chat_threads_run _ _ _ reader Hget). simpl.
    by rewrite Hthreads.
Qed.

(** X12: the ["id"] of a message is the text of the process clock and
    nothing makes it unique.  When the clock reads the same for two
    messages stored one after the other, both are stored, as two
    records with the same ["id"], and the thread lists both, in the
    order they were stored. *)
Theorem message_ids_can_repeat
    w c w1 chat_id uid1 question1 answer1 uid2 question2 answer2 reader :
  Reliable P → store_inv P w → get_db P w = (Ok (Some c), w1) →
  utcnow_timestamp P (clock_reads w) = utcnow_timestamp P (S (clock_reads w)) →
  let w2 := (store_message P uid1 chat_id question1 answer1 w).2 in
  let w3 := (store_message P uid2 chat_id question2 answer2 w2).2 in
  let first :=
    message_record (utcnow_timestamp P (clock_reads w)) chat_id
      question1 answer1 uid1 (commit_time P (commits w)) in
  let second :=
    message_record (utcnow_timestamp P (S (clock_reads w))) chat_id
      question2 answer2 uid2 (commit_time P (S (commits w))) in
  ∃ old,
    (get_chat_messages P reader chat_id w).1 = Ok old ∧
    (get_chat_messages P reader chat_id w3).1 = Ok (old ++ [first; second]) ∧
    first !! "id" = second !! "id" ∧
    first ≠ second.
Proof.
  intros HR Hinv Hget Hclock w2 w3 first second.
  destruct (messages_after_store _ _ _ uid1 chat_id question1 answer1 HR Hinv Hget)
    as (w2' & Hrun2 & (Hdb2 & _ & Hc2 & Hk2) & Hinv2 & Hnew2 & _).
  assert (w2 = w2') as E2 by (subst w2; by rewrite Hrun2).
  clearbody w2. subst w2'.
  destruct (messages_after_store _ _ _ uid2 chat_id question2 answer2 HR Hinv2
              (get_db_cached _ _ Hdb2))
    as (w3' & Hrun3 & (Hdb3 & _) & _ & Hnew3 & _).
  assert (w3 = w3') as E3 by (subst w3; by rewrite Hrun3).
  clearbody w3. subst w3'.
  rewrite Hc2, Hk2 in Hnew3. fold second in Hnew3. fold first in Hnew2.
  eexists. split; [|split; [|split]].
  - by rewrite (get_chat_messages_run _ _ _ reader chat_id Hget).
  - rewrite (get_chat_messages_run _ _ _ reader chat_id (get_db_cached _ _ Hdb3)).
    simpl. by rewrite Hnew3, Hnew2, <- app_assoc.
  - change (Some (VString (utcnow_timestamp P (clock_reads w))) =
            Some (VString (utcnow_timestamp P (S (clock_reads w))))).
    by rewrite Hclock.
  - intros Heq.
    assert (first !! "createdAt" = second !! "createdAt") as Hstamp
      by (by rewrite Heq).
    change (Some (VTimestamp (commit_time P (commits w))) =
            Some (VTimestamp (commit_time P (S (commits w))))) in Hstamp.
    pose proof (commit_time_mono P HR (commits w)). simplify_eq. lia.
Qed.

(** X13: titles are not keys.  Two calls of [create_new_chat] with the
    same user and the same title return two different identifiers and
    leave two threads, which head the listing of the user, the second
    before the first. *)
Theorem same_title_twice_two_threads w c w1 uid title :
  Reliable P → store_inv P w → get_db P w = (Ok (Some c), w1) →
  let once := create_new_chat P uid title w in
  let twice := create_new_chat P uid title once.2 in
  let id1 := auto_id P (ids_drawn w) in
  let id2 := auto_id P (S (ids_drawn w)) in
  ∃ old,
    once.1 = Ok id1 ∧ twice.1 = Ok id2 ∧ id1 ≠ id2 ∧
    (get_chat_threads P uid w).1 = Ok old ∧
    (get_chat_threads P uid twice.2).1 =
      Ok (thread_record id2 title uid (commit_time P (S (commits w)))
          :: thread_record id1 title uid (commit_time P (commits w))
          :: old).
Proof.
  intros HR Hinv Hget once twice id1 id2.
  destruct (threads_after_create _ _ _ uid title HR Hinv Hget)
    as (w2 & Hrun2 & (Hdb2 & Hi2 & Hc2 & _) & Hinv2 & Hnew2 & _).
  assert (once = (Ok id1, w2)) as E2 by done.
  clearbody once. subst once. simpl in twice.
  destruct (threads_after_create _ _ _ uid title HR Hinv2 (get_db_cached _ _ Hdb2))
    as (w3 & Hrun3 & (Hdb3 & _) & _ & Hnew3 & _).
  rewrite Hi2 in Hrun3. rewrite Hi2, Hc2 in Hnew3.
  assert (twice = (Ok id2, w3)) as E3 by done.
  clearbody twice. subst twice. simpl.
  eexists. split; [done|]. split; [done|]. split; [|split].
  - intros Heq. apply (auto_id_inj P HR) in Heq. lia.
  - by rewrite (get_chat_threads_run _ _ _ uid Hget).
  - rewrite (get_chat_threads_run _ _ _ uid (get_db_cached _ _ Hdb3)). simpl.
    by rewrite Hnew3, Hnew2.
Qed.

(** X14: what [get_chat_threads] hands out can be handed back.  Over a
    database that started empty, every record listed for a user is a
    thread of that user, and its ["id"] is the identifier under which
    the record is stored in ["conversations"]. *)
Theorem listed_threads_carry_their_id acts env fs c w1 uid :
  Reliable P →
  let w := run P acts (boot P env fs) in
  get_db P w = (Ok (Some c), w1) →
  ∃ threads,
    (get_chat_threads P uid w).1 = Ok threads ∧
    ∀ d, d ∈ threads →
      ∃ id title t,
        d = thread_record id title uid t ∧
        documents P "conversations" w !! id = Some d.
Proof.
  intros HR w Hget.
  assert (store_inv P w) as Hinv
    by (apply run_store_inv; [done | apply store_inv_boot]).
  pose proof (histories_keep_schema_aux acts env fs) as Hschema. fold w in Hschema.
  destruct (get_chat_threads_ok _ _ _ uid Hinv Hget) as (threads & Hrun & Hperm & _).
  exists threads. split; [by rewrite Hrun|].
  intros d Hd. rewrite Hperm in Hd.
  apply elem_of_records_with in Hd as (id & Hlook & Huid).
  destruct (schema_threads P w Hschema _ _ Hlook) as (title & u & t & ->).
  exists id, title, t. split; [|done].
  change (Some (VString u) = Some (VString uid)) in Huid. by simplify_eq.
Qed.

End Properties.

(** * The module at work *)

Section Examples.
Import Demo.

Lemma pair_from_fst {A B} (p : A * B) (a : A) : p.1 = a → p = (a, p.2).
Proof. intros <-. by destruct p. Qed.

Lemma demo_reliable : Reliable platform.
Proof.
  split; simpl.
  - intros n. discriminate.
  - intros n m H. apply (inj (String.app "doc")) in H. by apply (inj pretty).
  - intros n. lia.
Qed.

Lemma busy_store_inv : store_inv platform busy.
Proof. apply run_store_inv; [apply demo_reliable | apply store_inv_boot]. Qed.

Lemma busy_get_db : get_db platform busy = (Ok (Some handle), busy).
Proof. apply get_db_cached. vm_compute. reflexivity. Qed.

Lemma bare_get_db : get_db platform bare = (Ok None, (get_db platform bare).2).
Proof. apply pair_from_fst. vm_compute. reflexivity. Qed.

Lemma configured_get_db :
  get_db platform configured = (Ok (Some handle), (get_db platform configured).2).
Proof. apply pair_from_fst. vm_compute. reflexivity. Qed.

(** The threads of a user, newest first, by title. *)
Example busy_threads_of_alice :
  match (get_chat_threads platform "alice" busy).1 with
  | Ok threads => (fun d : doc => d !! "title") <$> threads
  | Raise _ => []
  end = [Some (VString "second"); Some (VString "first")].
Proof. vm_compute. reflexivity. Qed.

(** The message of a thread that was never created, read by someone
    else. *)
Example busy_messages_of_missing_thread :
  match (get_chat_messages platform "mallory" "no-such-thread" busy).1 with
  | Ok messages => (fun d : doc => (d !! "question", d !! "uid")) <$> messages
  | Raise _ => []
  end = [(Some (VString "ping"), Some (VString "alice"))].
Proof. vm_compute. reflexivity. Qed.

(** Without credentials every operation answers 503. *)
Lemma unavailable_is_503_witness :
  get_db platform bare = (Ok None, (get_db platform bare).2) ∧
  create_new_chat platform "alice" "first" bare =
    (Raise (HTTPException 503 "Firestore is not configured. Set GOOGLE_APPLICATION_CREDENTIALS or FIREBASE_CREDENTIALS_JSON in environment."),
     (get_db platform bare).2) ∧
  store_accesses platform (get_db platform bare).2 = store_accesses platform bare.
Proof.
  destruct (unavailable_is_503 platform bare _ "alice" "first" "doc0" "ping" "pong"
              bare_get_db)
    as (Hcreate & _ & _ & _ & _ & _ & Haccess).
  split; [exact bare_get_db|]. split; [exact Hcreate | exact Haccess].
Defined.

(** Without credentials the body of the [try] raises, and [get_db]
    returns [None]. *)
Lemma get_db_never_raises_witness :
  db bare = None ∧
  (get_db_try platform bare).1 = Raise (LibraryError "DefaultCredentialsError") ∧
  (get_db platform bare).1 = Ok None.
Proof.
  assert ((get_db_try platform bare).1 = Raise (LibraryError "DefaultCredentialsError"))
    as Htry by (vm_compute; reflexivity).
  split; [reflexivity|]. split; [exact Htry|].
  destruct (get_db_never_raises platform bare) as (o & w1 & Hget & _ & Hraise).
  destruct (Hraise _ _ eq_refl (pair_from_fst _ _ Htry)) as [-> _].
  by rewrite Hget.
Defined.

(** A failed acquisition is followed by another attempt: the second call
    reads the environment again, and once the blob is there it returns a
    handle, in the same process. *)
Lemma get_db_retries_after_failure :
  let w1 := (get_db platform bare).2 in
  let w2 := reconfigure platform {[ "FIREBASE_CREDENTIALS_JSON" := blob ]} ∅ w1 in
  (get_db platform bare).1 = Ok None ∧
  length (acquisitions platform w1) = 3%nat ∧
  length (acquisitions platform (get_db platform w1).2) = 6%nat ∧
  (get_db platform w2).1 = Ok (Some handle).
Proof. vm_compute. repeat split. Qed.

Lemma get_db_caches_success_only_witness :
  (let w1 := (get_db platform configured).2 in
   let w2 := run platform
               [CallCreateNewChat "alice" "first"; Reconfigure ∅ ∅; CallGetDb] w1 in
   get_db platform w2 = (Ok (Some handle), w2) ∧
   acquisitions platform w2 = acquisitions platform w1) ∧
  db (get_db platform bare).2 = None.
Proof.
  split.
  - apply (get_db_caches_success_only platform _ _ _ configured_get_db).
    repeat constructor; discriminate.
  - apply (get_db_caches_success_only platform _ _ _ bare_get_db).
Defined.

(** An empty value counts as no value: with the blob variable at the
    empty string nothing is parsed, the credential file path is looked
    up, and the client comes from default-credential discovery. *)
Lemma get_db_skips_empty_blob :
  environ empty_blob !! "FIREBASE_CREDENTIALS_JSON" = Some "" ∧
  (get_db platform empty_blob).1 = Ok (Some (None, JNull)) ∧
  trace (get_db platform empty_blob).2 =
    [ Getenv "FIREBASE_CREDENTIALS_JSON";
      Getenv "GOOGLE_APPLICATION_CREDENTIALS";
      PathExists "/etc/creds.json";
      NewClient false ] ∧
  handle_of platform
    (client_from_blob platform (environ empty_blob) (files empty_blob) "") = Ok None.
Proof. vm_compute. repeat split. Qed.

Lemma get_db_precedence_witness :
  db configured = None ∧
  (get_db platform configured).1 =
    handle_of platform
      (client_from_blob platform (environ configured) (files configured)
         (default "" (environ configured !! "FIREBASE_CREDENTIALS_JSON"))) ∧
  path_lookups platform (get_db platform configured).2 = path_lookups platform configured.
Proof.
  split; [reflexivity|].
  pose proof (get_db_precedence platform configured eq_refl) as H.
  assert (truthy (environ configured !! "FIREBASE_CREDENTIALS_JSON") = true) as E
    by (vm_compute; reflexivity).
  cbv zeta in H. rewrite E in H. exact H.
Defined.

Lemma create_new_chat_inserts_thread_witness :
  store_inv platform busy ∧
  get_db platform busy = (Ok (Some handle), busy) ∧
  let tid := auto_id platform (ids_drawn busy) in
  let record := thread_record tid "third" "carol" (commit_time platform (commits busy)) in
  ∃ w2,
    create_new_chat platform "carol" "third" busy = (Ok tid, w2) ∧
    documents platform "conversations" busy !! tid = None ∧
    ∃ threads w3,
      get_chat_threads platform "carol" w2 = (Ok threads, w3) ∧ record ∈ threads.
Proof.
  split; [apply busy_store_inv|]. split; [apply busy_get_db|].
  destruct (create_new_chat_inserts_thread platform busy handle busy "carol" "third"
              demo_reliable busy_store_inv busy_get_db)
    as (w2 & Hrun & _ & Hfresh & _ & _ & Hlist).
  exists w2. split; [exact Hrun|]. split; [exact Hfresh | exact Hlist].
Defined.

Lemma get_chat_threads_newest_first_witness :
  store_inv platform busy ∧
  get_db platform busy = (Ok (Some handle), busy) ∧
  ∃ threads,
    get_chat_threads platform "alice" busy =
      (Ok threads, log platform (RunQuery "conversations") busy) ∧
    threads ≡ₚ records_with platform "conversations" "uid" (VString "alice") busy ∧
    StronglySorted (flip created_before) threads.
Proof.
  split; [apply busy_store_inv|]. split; [apply busy_get_db|].
  destruct (get_chat_threads_newest_first platform busy handle busy "alice"
              busy_store_inv busy_get_db)
    as (threads & Hrun & Hperm & Hsorted & _).
  exists threads. split; [exact Hrun|]. split; [exact Hperm | exact Hsorted].
Defined.

Lemma get_chat_messages_oldest_first_witness :
  store_inv platform busy ∧
  get_db platform busy = (Ok (Some handle), busy) ∧
  ∃ messages,
    get_chat_messages platform "alice" "no-such-thread" busy =
      (Ok messages, log platform (RunQuery "messages") busy) ∧
    StronglySorted created_before messages.
Proof.
  split; [apply busy_store_inv|]. split; [apply busy_get_db|].
  destruct (get_chat_messages_oldest_first platform busy handle busy "alice"
              "no-such-thread" demo_reliable busy_store_inv busy_get_db)
    as [(messages & Hrun & _ & Hsorted) _].
  exists messages. split; [exact Hrun | exact Hsorted].
Defined.

Lemma store_message_inserts_message_witness :
  store_inv platform busy ∧
  get_db platform busy = (Ok (Some handle), busy) ∧
  let mid := auto_id platform (ids_drawn busy) in
  let record :=
    message_record (utcnow_timestamp platform (clock_reads busy)) "doc0" "hello"
      "world" "alice" (commit_time platform (commits busy)) in
  ∃ w2,
    store_message platform "alice" "doc0" "hello" "world" busy = (Ok true, w2) ∧
    store w2 =
      <["messages" := <[mid := record]> (documents platform "messages" busy)]>
        (store busy).
Proof.
  split; [apply busy_store_inv|]. split; [apply busy_get_db|].
  destruct (store_message_inserts_message platform busy handle busy "alice" "doc0"
              "hello" "world" demo_reliable busy_store_inv busy_get_db)
    as (w2 & Hrun & _ & Hstore & _).
  exists w2. split; [exact Hrun | exact Hstore].
Defined.

Lemma store_message_needs_no_thread_witness :
  store_inv platform busy ∧
  get_db platform busy = (Ok (Some handle), busy) ∧
  documents platform "conversations" busy !! "nowhere" = None ∧
  let record :=
    message_record (utcnow_timestamp platform (clock_reads busy)) "nowhere" "hello"
      "world" "alice" (commit_time platform (commits busy)) in
  ∃ w2 messages w3,
    store_message platform "alice" "nowhere" "hello" "world" busy = (Ok true, w2) ∧
    get_chat_messages platform "mallory" "nowhere" w2 = (Ok messages, w3) ∧
    record ∈ messages.
Proof.
  split; [apply busy_store_inv|]. split; [apply busy_get_db|].
  split; [vm_compute; reflexivity|].
  destruct (store_message_needs_no_thread platform busy handle busy "alice" "nowhere"
              "hello" "world" "mallory" demo_reliable busy_store_inv busy_get_db)
    as (w2 & Hrun & _ & _ & messages & w3 & Hlist & Hin).
  exists w2, messages, w3. split; [exact Hrun|]. split; [exact Hlist | exact Hin].
Defined.

(** ** Further properties at work *)

Lemma coarse_reliable : Reliable coarse.
Proof.
  split; simpl.
  - intros n. discriminate.
  - intros n m H. apply (inj (String.app "doc")) in H. by apply (inj pretty).
  - intros n. lia.
Qed.

Lemma chatting_store_inv : store_inv coarse chatting.
Proof. apply run_store_inv; [apply coarse_reliable | apply store_inv_boot]. Qed.

Lemma chatting_get_db :
  get_db coarse chatting = (Ok (Some (Some (JObject []), JNull)), chatting).
Proof. apply get_db_cached. vm_compute. reflexivity. Qed.

Lemma get_db_bad_blob_no_fallback_witness :
  db bad_blob = None ∧
  json_loads platform "not json" = Raise (LibraryError "JSONDecodeError") ∧
  client_by_discovery platform (environ bad_blob) (files bad_blob) = Ok (None, JNull) ∧
  (get_db platform bad_blob).1 = Ok None.
Proof.
  split; [reflexivity|]. split; [reflexivity|]. split; [vm_compute; reflexivity|].
  assert (environ bad_blob !! "FIREBASE_CREDENTIALS_JSON" = Some "not json") as Henv
    by (vm_compute; reflexivity).
  by rewrite (get_db_bad_blob_no_fallback platform bad_blob "not json"
                (LibraryError "JSONDecodeError") eq_refl Henv).
Defined.

Lemma get_db_blob_without_project_witness :
  db no_project = None ∧
  json_loads coarse "{}" = Ok (JObject []) ∧
  (get_db coarse no_project).1 =
    handle_of coarse
      (firestore_Client coarse (environ no_project) (files no_project)
         (Some (JObject [])) JNull).
Proof.
  split; [reflexivity|]. split; [reflexivity|].
  assert (environ no_project !! "FIREBASE_CREDENTIALS_JSON" = Some "{}") as Henv
    by (vm_compute; reflexivity).
  refine (proj1 (get_db_blob_without_project coarse no_project "{}" [] (JObject [])
                   eq_refl Henv _ eq_refl _ eq_refl)).
  - discriminate.
  - intros v Hin. by apply not_elem_of_nil in Hin.
Defined.

Lemma histories_keep_store_inv_witness :
  Reliable platform ∧ store_inv platform busy.
Proof.
  split; [apply demo_reliable|].
  exact (histories_keep_store_inv platform _ _ _ demo_reliable).
Defined.

Lemma records_are_never_changed_witness :
  is_Some (documents platform "conversations" busy !! "doc0") ∧
  documents platform "conversations"
    (run platform
       [ CallCreateNewChat "alice" "first"; Restart;
         CallStoreMessage "bob" "doc0" "ping" "pong" ] busy) !! "doc0"
  = documents platform "conversations" busy !! "doc0".
Proof.
  assert (is_Some (documents platform "conversations" busy !! "doc0")) as Hsome.
  { apply (bool_decide_unpack _). vm_compute. exact I. }
  split; [exact Hsome|]. destruct Hsome as [d Hd]. rewrite Hd.
  exact (records_are_never_changed platform _ busy _ _ _
           demo_reliable busy_store_inv Hd).
Defined.

Lemma new_thread_is_listed_first_witness :
  store_inv platform busy ∧
  get_db platform busy = (Ok (Some handle), busy) ∧
  let w2 := (create_new_chat platform "alice" "third" busy).2 in
  let record :=
    thread_record (auto_id platform (ids_drawn busy)) "third" "alice"
      (commit_time platform (commits busy)) in
  ∃ old,
    (get_chat_threads platform "alice" busy).1 = Ok old ∧
    (get_chat_threads platform "alice" w2).1 = Ok (record :: old).
Proof.
  split; [apply busy_store_inv|]. split; [apply busy_get_db|].
  exact (new_thread_is_listed_first platform busy handle busy "alice" "third"
           demo_reliable busy_store_inv busy_get_db).
Defined.

Lemma new_message_is_listed_last_witness :
  store_inv platform busy ∧
  get_db platform busy = (Ok (Some handle), busy) ∧
  let w2 := (store_message platform "alice" "no-such-thread" "hello" "world" busy).2 in
  let record :=
    message_record (utcnow_timestamp platform (clock_reads busy)) "no-such-thread"
      "hello" "world" "alice" (commit_time platform (commits busy)) in
  ∃ old,
    (get_chat_messages platform "bob" "no-such-thread" busy).1 = Ok old ∧
    (get_chat_messages platform "bob" "no-such-thread" w2).1 = Ok (old ++ [record]).
Proof.
  split; [apply busy_store_inv|]. split; [apply busy_get_db|].
  exact (new_message_is_listed_last platform busy handle busy "alice"
           "no-such-thread" "hello" "world" "bob"
           demo_reliable busy_store_inv busy_get_db).
Defined.

Lemma create_new_chat_leaves_other_listings_witness :
  store_inv platform busy ∧
  get_db platform busy = (Ok (Some handle), busy) ∧
  let w2 := (create_new_chat platform "alice" "third" busy).2 in
  (get_chat_threads platform "bob" w2).1 = (get_chat_threads platform "bob" busy).1 ∧
  (get_chat_messages platform "bob" "no-such-thread" w2).1 =
    (get_chat_messages platform "bob" "no-such-thread" busy).1.
Proof.
  split; [apply busy_store_inv|]. split; [apply busy_get_db|].
  destruct (create_new_chat_leaves_other_listings platform busy handle busy "alice"
              "third" "bob" "no-such-thread" demo_reliable busy_store_inv busy_get_db)
    as [Hthreads Hmessages].
  split; [apply Hthreads; discriminate | exact Hmessages].
Defined.

Lemma store_message_leaves_other_listings_witness :
  store_inv platform busy ∧
  get_db platform busy = (Ok (Some handle), busy) ∧
  let w2 := (store_message platform "alice" "doc0" "hello" "world" busy).2 in
  (get_chat_messages platform "bob" "no-such-thread" w2).1 =
    (get_chat_messages platform "bob" "no-such-thread" busy).1 ∧
  (get_chat_threads platform "bob" w2).1 = (get_chat_threads platform "bob" busy).1.
Proof.
  split; [apply busy_store_inv|]. split; [apply busy_get_db|].
  destruct (store_message_leaves_other_listings platform busy handle busy "alice"
              "doc0" "hello" "world" "bob" "no-such-thread"
              demo_reliable busy_store_inv busy_get_db)
    as [Hmessages Hthreads].
  split; [apply Hmessages; discriminate | exact Hthreads].
Defined.

Lemma message_ids_can_repeat_witness :
  store_inv coarse chatting ∧
  utcnow_timestamp coarse (clock_reads chatting) =
    utcnow_timestamp coarse (S (clock_reads chatting)) ∧
  let w2 := (store_message coarse "alice" "doc9" "one" "1" chatting).2 in
  let w3 := (store_message coarse "bob" "doc9" "two" "2" w2).2 in
  let first :=
    message_record "1700000000.0" "doc9" "one" "1" "alice"
      (commit_time coarse (commits chatting)) in
  let second :=
    message_record "1700000000.0" "doc9" "two" "2" "bob"
      (commit_time coarse (S (commits chatting))) in
  ∃ old,
    (get_chat_messages coarse "carol" "doc9" chatting).1 = Ok old ∧
    (get_chat_messages coarse "carol" "doc9" w3).1 = Ok (old ++ [first; second]) ∧
    first ≠ second.
Proof.
  split; [apply chatting_store_inv|]. split; [reflexivity|].
  destruct (message_ids_can_repeat coarse chatting _ chatting "doc9"
              "alice" "one" "1" "bob" "two" "2" "carol"
              coarse_reliable chatting_store_inv chatting_get_db eq_refl)
    as (old & Hold & Hnew & _ & Hne).
  exists old. split; [exact Hold|]. split; [exact Hnew | exact Hne].
Defined.

Lemma same_title_twice_two_threads_witness :
  store_inv platform busy ∧
  get_db platform busy = (Ok (Some handle), busy) ∧
  let once := create_new_chat platform "alice" "again" busy in
  let twice := create_new_chat platform "alice" "again" once.2 in
  once.1 = Ok (auto_id platform (ids_drawn busy)) ∧
  twice.1 = Ok (auto_id platform (S (ids_drawn busy))) ∧
  auto_id platform (ids_drawn busy) ≠ auto_id platform (S (ids_drawn busy)).
Proof.
  split; [apply busy_store_inv|]. split; [apply busy_get_db|].
  destruct (same_title_twice_two_threads platform busy handle busy "alice" "again"
              demo_reliable busy_store_inv busy_get_db)
    as (old & Honce & Htwice & Hne & _).
  split; [exact Honce|]. split; [exact Htwice | exact Hne].
Defined.

Lemma listed_threads_carry_their_id_witness :
  Reliable platform ∧
  get_db platform busy = (Ok (Some handle), busy) ∧
  ∃ threads,
    (get_chat_threads platform "alice" busy).1 = Ok threads ∧
    ∀ d, d ∈ threads →
      ∃ id title t,
        d = thread_record id title "alice" t ∧
        documents platform "conversations" busy !! id = Some d.
Proof.
  split; [apply demo_reliable|]. split; [apply busy_get_db|].
  exact (listed_threads_carry_their_id platform _ _ _ handle busy "alice"
           demo_reliable busy_get_db).
Defined.

End Examples.
